(** * network-segmenter: addresses, masks, networks and segmentation

    A shallow embedding of the C++ sources ([address/], [mask/], [network/],
    [utils/]) together with the properties of the specification that were
    checked against it.

    Conventions of the embedding:
    - [uint8_t], [uint16_t], [uint32_t], [size_t] and [int] values are integers
      of [Z]; every conversion to an unsigned type is written out as a
      reduction modulo the width of the type.  Signed [int] expressions are
      computed in [Z]: signed overflow has no defined result in C++.
    - [std::vector<uint8_t>] is [list Z], most significant octet first, as in
      the source; [std::string] is [string].
    - an exception is a value of [exn]; a function that may throw returns
      [result]. *)

From Stdlib Require Import ZArith List String Ascii Bool Lia.
Import ListNotations.
Open Scope Z_scope.

(** ** Machine integers *)

Definition to_uint8 (z : Z) : Z := z mod 256.
Definition to_uint32 (z : Z) : Z := z mod 2 ^ 32.
Definition to_size_t (z : Z) : Z := z mod 2 ^ 64.
Definition to_int (z : Z) : Z :=
  let u := z mod 2 ^ 32 in if u <? 2 ^ 31 then u else u - 2 ^ 32.

Definition INT_MAX : Z := 2 ^ 31 - 1.

(** An octet vector is well formed when every element is a [uint8_t]. *)
Definition is_octet (b : Z) : bool := (0 <=? b) && (b <? 256).
Definition is_octets (l : list Z) : bool := forallb is_octet l.

(** Numeric value of an octet vector read most significant octet first, and
    of the same octets in reverse-iteration order ([rbegin] to [rend]). *)
Definition value (l : list Z) : Z := fold_left (fun acc b => acc * 256 + b) l 0.

Fixpoint value_le (r : list Z) : Z :=
  match r with
  | [] => 0
  | b :: t => b + 256 * value_le t
  end.

(** ** Exceptions *)

Inductive exn : Type :=
| invalid_argument (what : string)
| out_of_range (what : string)
| length_error.

Inductive result (A : Type) : Type :=
| Ok (a : A)
| Throw (e : exn).
Arguments Ok {A} a.
Arguments Throw {A} e.

Definition bind {A B} (r : result A) (k : A -> result B) : result B :=
  match r with
  | Ok a => k a
  | Throw e => Throw e
  end.

Notation "x <- c1 ;; c2" := (bind c1 (fun x => c2))
  (at level 61, c1 at next level, right associativity).

Definition succeeds {A} (r : result A) : bool :=
  match r with Ok _ => true | Throw _ => false end.

(** Element access and update of a vector by position. *)
Fixpoint set_nth {A} (l : list A) (i : nat) (v : A) : list A :=
  match l, i with
  | [], _ => []
  | _ :: t, O => v :: t
  | x :: t, S j => x :: set_nth t j v
  end.

(** ** utils/utils.cpp *)

Fixpoint starts_with (d s : string) : bool :=
  match d, s with
  | EmptyString, _ => true
  | String _ _, EmptyString => false
  | String a d', String b s' => Ascii.eqb a b && starts_with d' s'
  end.

(** [s.find(delimiter) != npos] *)
Fixpoint contains (d s : string) : bool :=
  starts_with d s ||
  match s with
  | EmptyString => false
  | String _ s' => contains d s'
  end.

(** The scan of [split]: [skip] counts the characters of a delimiter
    occurrence that are still to be stepped over ([start = end +
    delimiter.length()]), [tok] is the token read since [start]. *)
Fixpoint split_scan (d s : string) (skip : nat) (tok : string) : list string :=
  match s with
  | EmptyString => [tok]
  | String c s' =>
      match skip with
      | S k => split_scan d s' k tok
      | O =>
          if starts_with d s
          then tok :: split_scan d s' (String.length d - 1) EmptyString
          else split_scan d s' O (tok ++ String c EmptyString)%string
      end
  end.

(** [split(s, delimiter)], for the non-empty delimiters the program uses
    (the loop of the source does not advance on an empty delimiter). *)
Definition split (s delimiter : string) : list string :=
  split_scan delimiter s O EmptyString.

(** ** mask/mask.h, mask/mask.cpp *)

Module Mask.

Definition MASK_MIN_PREFIX : Z := 1.
Definition MASK_MAX_PREFIX : Z := 128.

Record t : Type := mk { _prefixLength : Z; _maskOctets : list Z }.

(** The default constructor. *)
Definition default : t := mk MASK_MIN_PREFIX [].

Definition isValidPrefixLength (prefixLength : Z) : bool :=
  (prefixLength >=? MASK_MIN_PREFIX) && (prefixLength <=? MASK_MAX_PREFIX).

(** The [while (prefixLength > 0)] loop; every iteration lowers
    [prefixLength], so [prefixLength] iterations are always enough. *)
Fixpoint setMaskOctets_loop (fuel : nat) (prefixLength : Z) : list Z :=
  match fuel with
  | O => []
  | S fuel' =>
      if prefixLength >? 0 then
        if prefixLength >=? 8
        then 255 :: setMaskOctets_loop fuel' (prefixLength - 8)
        else [to_uint8 (Z.shiftl 255 (8 - prefixLength))]
      else []
  end.

Definition setMaskOctets (prefixLength : Z) : list Z :=
  setMaskOctets_loop (Z.to_nat prefixLength) prefixLength.

Definition make (prefixLength : Z) : result t :=
  if negb (isValidPrefixLength prefixLength)
  then Throw (invalid_argument "Invalid prefix length: must be between 1 and 128.")
  else Ok (mk prefixLength (setMaskOctets prefixLength)).

Definition getPrefixLength (m : t) : Z := _prefixLength m.
Definition getSize (m : t) : Z := Z.of_nat (List.length (_maskOctets m)).

(** [operator ~]: every stored octet is inverted, the prefix length kept. *)
Definition complement (m : t) : t :=
  mk (_prefixLength m) (map (fun b => to_uint8 (Z.lnot b)) (_maskOctets m)).

End Mask.

(** ** address/ip_address.h, address/ip_address.cpp *)

Module IPAddress.

Inductive family : Type := IPv4 | IPv6.

Record t : Type := mk { kind : family; _address : list Z }.

Definition with_address (ip : t) (v : list Z) : t := mk (kind ip) v.

Definition getSize (ip : t) : Z := Z.of_nat (List.length (_address ip)).

(** The constructor [IPAddress(size)]: [size] zero octets. *)
Definition zeros (k : family) (size : nat) : t := mk k (repeat 0 size).

(** [calculateCapacity]: the shift is an [int] expression converted to the
    [uint32_t] result (for a prefix length below 1 the shift count is 32 or
    more, which C++ leaves undefined; the callers never pass one). *)
Definition calculateCapacity (ip : t) (prefixLength : Z) : Z :=
  if prefixLength >=? 32 then 65536
  else to_uint32 (to_int (Z.shiftl 1 (32 - prefixLength))).

(** [operator ++]: the reverse scan stops at the first octet that is not
    255 and increments it; octets equal to 255 are passed over. *)
Fixpoint inc_scan (r : list Z) : list Z :=
  match r with
  | [] => []
  | o :: rest =>
      if negb (o =? 255) then to_uint8 (o + 1) :: rest
      else o :: inc_scan rest
  end.

Definition operator_inc (ip : t) : t :=
  with_address ip (rev (inc_scan (rev (_address ip)))).

(** [operator --] *)
Fixpoint dec_scan (r : list Z) : list Z :=
  match r with
  | [] => []
  | o :: rest =>
      if negb (o =? 0) then to_uint8 (o - 1) :: rest
      else o :: dec_scan rest
  end.

Definition operator_dec (ip : t) : t :=
  with_address ip (rev (dec_scan (rev (_address ip)))).

(** [operator +=(int)]: [%] and [/] of C++ truncate towards zero. *)
Fixpoint add_scan (r : list Z) (carry : Z) : list Z :=
  match r with
  | [] => []
  | o :: rest =>
      if carry =? 0 then r
      else
        let sum := o + carry in
        to_uint8 (Z.rem sum 256) :: add_scan rest (Z.quot sum 256)
  end.

Definition operator_add (ip : t) (increment : Z) : t :=
  with_address ip (rev (add_scan (rev (_address ip)) increment)).

(** [operator -=(int)] *)
Fixpoint sub_scan (r : list Z) (borrow : Z) : list Z :=
  match r with
  | [] => []
  | o :: rest =>
      if borrow =? 0 then r
      else
        let difference := o - borrow in
        to_uint8 (Z.rem difference 256) :: sub_scan rest (Z.quot difference 256)
  end.

Definition operator_sub (ip : t) (decrement : Z) : t :=
  with_address ip (rev (sub_scan (rev (_address ip)) decrement)).

(** [operator &=]: [m] is what is left of the mask octets from [maskIndex]
    on. *)
Fixpoint and_scan (a m : list Z) : list Z :=
  match a with
  | [] => []
  | o :: rest =>
      match m with
      | mo :: m' => Z.land o mo :: and_scan rest m'
      | [] => 0 :: and_scan rest []
      end
  end.

Definition operator_and (ip : t) (mask : Mask.t) : t :=
  with_address ip (and_scan (_address ip) (Mask._maskOctets mask)).

(** [operator |=] *)
Fixpoint or_scan (a m : list Z) : list Z :=
  match a with
  | [] => []
  | o :: rest =>
      match m with
      | mo :: m' => Z.lor o mo :: or_scan rest m'
      | [] => 255 :: or_scan rest []
      end
  end.

Definition operator_or (ip : t) (mask : Mask.t) : t :=
  with_address ip (or_scan (_address ip) (Mask._maskOctets mask)).

(** The numeric value of the address. *)
Definition to_Z (ip : t) : Z := value (_address ip).

End IPAddress.

(** ** Text conversions of the standard library used by the sources *)

Definition code (c : ascii) : Z := Z.of_N (N_of_ascii c).

(** [::isdigit] and [::isxdigit] in the "C" locale. *)
Definition isdigit (c : ascii) : bool := (48 <=? code c) && (code c <=? 57).
Definition isxdigit (c : ascii) : bool :=
  isdigit c
  || ((97 <=? code c) && (code c <=? 102))
  || ((65 <=? code c) && (code c <=? 70)).

Fixpoint all_of (p : ascii -> bool) (s : string) : bool :=
  match s with
  | EmptyString => true
  | String c s' => p c && all_of p s'
  end.

Definition empty (s : string) : bool :=
  match s with EmptyString => true | String _ _ => false end.

(** Value of a digit character in the given base, if it is one. *)
Definition digit_value (base : Z) (c : ascii) : option Z :=
  let v :=
    if isdigit c then code c - 48
    else if (97 <=? code c) && (code c <=? 122) then code c - 87
    else if (65 <=? code c) && (code c <=? 90) then code c - 55
    else base in
  if v <? base then Some v else None.

(** Reads the longest prefix of digits; [None] when there is no digit. *)
Fixpoint read_digits (base : Z) (s : string) (acc : option Z) : option Z :=
  match s with
  | EmptyString => acc
  | String c s' =>
      match digit_value base c with
      | Some v =>
          read_digits base s' (Some (match acc with Some a => a | None => 0 end * base + v))
      | None => acc
      end
  end.

(** [std::stoi(s, nullptr, base)] on a text that starts with neither white
    space, a sign nor a radix prefix (the callers only pass texts made of
    digits): no digit is [invalid_argument], a value that does not fit [int]
    is [out_of_range]. *)
Definition stoi (s : string) (base : Z) : result Z :=
  match read_digits base s None with
  | None => Throw (invalid_argument "stoi")
  | Some v => if v >? INT_MAX then Throw (out_of_range "stoi") else Ok v
  end.

Definition digit_char (d : Z) : ascii :=
  ascii_of_N (Z.to_N (if d <? 10 then 48 + d else 87 + d)).

(** Digits of a non-negative [int] in the given base, most significant
    first, lowercase, without leading zeros ([operator <<] on an [int]); an
    [int] has at most 10 decimal digits. *)
Fixpoint print_digits (fuel : nat) (base n : Z) (acc : string) : string :=
  match fuel with
  | O => acc
  | S fuel' =>
      let acc' := String (digit_char (n mod base)) acc in
      if n <? base then acc' else print_digits fuel' base (n / base) acc'
  end.

Definition print_int (base n : Z) : string := print_digits 10 base n EmptyString.

(** ** address/ipv4_address.h, address/ipv4_address.cpp *)

Module IPv4Address.

Definition IPV4_NUM_OCTETS : nat := 4.

(** The body of the loop of [setAddress] for index [i]. *)
Definition setOctet (octets : list string) (addr : list Z) (i : nat)
  : result (list Z) :=
  let octet := nth i octets EmptyString in
  if empty octet || negb (all_of isdigit octet)
  then Throw (invalid_argument
         "Invalid IPv4 address: parts must be non-empty and contain only digits.")
  else
    octetValue <- stoi octet 10 ;;
    if (octetValue <? 0) || (octetValue >? 255)
    then Throw (invalid_argument
           "Invalid IPv4 address: parts must be between 0 and 255.")
    else Ok (set_nth addr i (to_uint8 octetValue)).

Fixpoint setAddress_loop (octets : list string) (indices : list nat)
    (addr : list Z) : result (list Z) :=
  match indices with
  | [] => Ok addr
  | i :: indices' =>
      addr' <- setOctet octets addr i ;;
      setAddress_loop octets indices' addr'
  end.

Definition setAddress (addr : list Z) (address : string) : result (list Z) :=
  let octets := split address "." in
  if negb (Nat.eqb (List.length octets) IPV4_NUM_OCTETS)
  then Throw (invalid_argument "Invalid IPv4 address: must have 4 parts.")
  else setAddress_loop octets (seq 0 IPV4_NUM_OCTETS) addr.

(** The constructor [IPv4Address(address)]. *)
Definition make (address : string) : result IPAddress.t :=
  v <- setAddress (repeat 0 IPV4_NUM_OCTETS) address ;;
  Ok (IPAddress.mk IPAddress.IPv4 v).

Definition isPrefixLengthCompatible (prefixLength : Z) : bool :=
  (prefixLength >=? 1) && (prefixLength <=? 32).

(** [print]: every octet in decimal, a period after all but the last. *)
Fixpoint print_octets (l : list Z) : string :=
  match l with
  | [] => EmptyString
  | [o] => print_int 10 o
  | o :: rest => (print_int 10 o ++ "." ++ print_octets rest)%string
  end.

Definition print (ip : IPAddress.t) : string :=
  print_octets (IPAddress._address ip).

End IPv4Address.

(** ** address/ipv6_address.h, address/ipv6_address.cpp *)

Module IPv6Address.

Definition IPV6_NUM_HEXTETS : nat := 8.
Definition IPV6_NUM_OCTETS : nat := 16.

(** [vector<string>::max_size()] of the usual 64-bit implementations. *)
Definition max_size : Z := (2 ^ 63 - 1) / 32.

(** [hextets.resize(n, fill)] *)
Definition resize (l : list string) (n : Z) (fill : string) : result (list string) :=
  if n >? max_size then Throw length_error
  else Ok (firstn (Z.to_nat n) l
           ++ repeat fill (Z.to_nat n - List.length l)).

(** The first part of [setAddress]: the vector of hextet texts. *)
Definition hextets_of (address : string) : result (list string) :=
  if contains "::" address then
    let parts := split address "::" in
    let part0 := nth 0 parts EmptyString in
    let part1 := nth 1 parts EmptyString in
    let leftPart := if empty part0 then [] else split part0 ":" in
    let rightPart := if empty part1 then [] else split part1 ":" in
    hextets <- resize leftPart
                 (to_size_t (Z.of_nat IPV6_NUM_HEXTETS
                             - Z.of_nat (List.length rightPart))) "0" ;;
    Ok (hextets ++ rightPart)
  else Ok (split address ":").

(** The body of the second loop of [setAddress] for index [i]. *)
Definition setHextet (hextets : list string) (addr : list Z) (i : nat)
  : result (list Z) :=
  let hextet := nth i hextets EmptyString in
  if empty hextet || negb (all_of isxdigit hextet)
  then Throw (invalid_argument
    "Invalid address format: hextets must be non-empty and contain only hexadecimal digits.")
  else
    hextetValue <- stoi hextet 16 ;;
    if (hextetValue <? 0) || (hextetValue >? 65535)
    then Throw (invalid_argument
      "Invalid address format: hextets must be between 0x0000 and 0xFFFF.")
    else
      let j := (i * 2)%nat in
      Ok (set_nth (set_nth addr j (to_uint8 (Z.shiftr hextetValue 8)))
            (j + 1) (to_uint8 (Z.land hextetValue 255))).

Fixpoint setAddress_loop (hextets : list string) (indices : list nat)
    (addr : list Z) : result (list Z) :=
  match indices with
  | [] => Ok addr
  | i :: indices' =>
      addr' <- setHextet hextets addr i ;;
      setAddress_loop hextets indices' addr'
  end.

Definition setAddress (addr : list Z) (address : string) : result (list Z) :=
  hextets <- hextets_of address ;;
  if negb (Nat.eqb (List.length hextets) IPV6_NUM_HEXTETS)
  then Throw (invalid_argument "Invalid address format: must have 8 parts.")
  else setAddress_loop hextets (seq 0 IPV6_NUM_HEXTETS) addr.

(** The constructor [IPv6Address(address)]. *)
Definition make (address : string) : result IPAddress.t :=
  v <- setAddress (repeat 0 IPV6_NUM_OCTETS) address ;;
  Ok (IPAddress.mk IPAddress.IPv6 v).

Definition isPrefixLengthCompatible (prefixLength : Z) : bool :=
  (prefixLength >=? 1) && (prefixLength <=? 128).

(** [operator []]: the hextet at [index] (the callers stay below 8). *)
Definition hextet (ip : IPAddress.t) (index : nat) : Z :=
  let i := (index * 2)%nat in
  Z.lor (Z.shiftl (nth i (IPAddress._address ip) 0) 8)
        (nth (i + 1) (IPAddress._address ip) 0).

(** [operator +=(const vector<uint8_t>&)], on the reverse-iteration order
    of both vectors.  The result is in the same order, so an octet that
    the source inserts at [_address.begin()] appears at its end; after an
    insertion [addressIt] is taken to stay at [rend()].  The three
    functions are the three phases of the one loop of the source.

    [spill]: neither vector has an octet left, the carry is not zero. *)
Fixpoint spill (fuel : nat) (carry : Z) : list Z :=
  match fuel with
  | O => []
  | S fuel' =>
      if carry =? 0 then []
      else Z.land carry 255 :: spill fuel' (Z.shiftr carry 8)
  end.

(** [carry_scan]: the increment is exhausted, the loop runs on while the
    carry is not zero. *)
Fixpoint carry_scan (a : list Z) (carry : Z) : list Z :=
  match a with
  | [] => spill 4 carry
  | o :: rest =>
      if carry =? 0 then a
      else
        let sum := carry + o in
        Z.land sum 255 :: carry_scan rest (Z.shiftr sum 8)
  end.

Fixpoint add_scan (inc a : list Z) (carry : Z) : list Z :=
  match inc with
  | [] => carry_scan a carry
  | x :: inc' =>
      match a with
      | o :: rest =>
          let sum := carry + x + o in
          Z.land sum 255 :: add_scan inc' rest (Z.shiftr sum 8)
      | [] =>
          let sum := carry + x in
          Z.land sum 255 :: add_scan inc' [] (Z.shiftr sum 8)
      end
  end.

Definition operator_add (ip : IPAddress.t) (increment : list Z) : IPAddress.t :=
  IPAddress.with_address ip
    (rev (add_scan (rev increment) (rev (IPAddress._address ip)) 0)).

(** State of the scan of [findLongestZeroSequence]. *)
Record zscan : Type := mkZ
  { longestStart : Z; longestLength : Z; currentStart : Z; currentLength : Z }.

Definition zscan_step (ip : IPAddress.t) (st : zscan) (i : nat) : zscan :=
  if hextet ip i =? 0 then
    mkZ (longestStart st) (longestLength st)
        (if currentStart st =? -1 then Z.of_nat i else currentStart st)
        (currentLength st + 1)
  else if currentLength st >? longestLength st
  then mkZ (currentStart st) (currentLength st) (-1) 0
  else mkZ (longestStart st) (longestLength st) (-1) 0.

Definition findLongestZeroSequence (ip : IPAddress.t) : Z * Z :=
  let st := fold_left (zscan_step ip) (seq 0 IPV6_NUM_HEXTETS) (mkZ (-1) 0 (-1) 0) in
  let st :=
    if currentLength st >? longestLength st
    then mkZ (currentStart st) (currentLength st) (currentStart st) (currentLength st)
    else st in
  if longestStart st =? -1 then (-1, -1)
  else (longestStart st, longestStart st + longestLength st - 1).

(** One iteration of the loop of [print]; [s] is the text written so far. *)
Definition print_step (ip : IPAddress.t) (start_ end_ : Z) (s : string) (n : nat)
  : string :=
  let i := Z.of_nat n in
  let s := if i =? start_ then (s ++ ":")%string else s in
  if (i >=? start_) && (i <=? end_) then s
  else
    let s := (s ++ print_int 16 (hextet ip n))%string in
    if (i <? Z.of_nat IPV6_NUM_HEXTETS - 1) && negb (i =? end_)
    then (s ++ ":")%string else s.

Definition print (ip : IPAddress.t) : string :=
  let '(start_, end_) := findLongestZeroSequence ip in
  fold_left (print_step ip start_ end_) (seq 0 IPV6_NUM_HEXTETS) EmptyString.

End IPv6Address.

(** ** network/network.h, network/network.cpp *)

Module Network.

(** [_broadcastIp] is the member that [IPv4Network] adds; it is [None] in
    an [IPv6Network]. *)
#[warnings="-register-all"] Inductive t : Type := mk
  { _ip : IPAddress.t;
    _firstIp : IPAddress.t;
    _lastIp : IPAddress.t;
    _mask : Mask.t;
    _subnets : list t;
    _broadcastIp : option IPAddress.t }.

Definition getPrefixLength (n : t) : Z := Mask.getPrefixLength (_mask n).
Definition getSubnetCount (n : t) : Z := Z.of_nat (List.length (_subnets n)).

(** The virtual [isPrefixLengthCompatible] of the address. *)
Definition isPrefixLengthCompatible (ip : IPAddress.t) (prefixLength : Z) : bool :=
  match IPAddress.kind ip with
  | IPAddress.IPv4 => IPv4Address.isPrefixLengthCompatible prefixLength
  | IPAddress.IPv6 => IPv6Address.isPrefixLengthCompatible prefixLength
  end.

(** The constructor [Network(ip, prefixLength)]. *)
Definition make (ip : IPAddress.t) (prefixLength : Z) : result t :=
  if negb (isPrefixLengthCompatible ip prefixLength)
  then Throw (invalid_argument "Prefix length is not compatible with address type.")
  else
    mask <- Mask.make prefixLength ;;
    let ip' := IPAddress.operator_and ip mask in
    let firstIp := IPAddress.operator_inc ip' in
    let lastIp := IPAddress.operator_or ip' (Mask.complement mask) in
    Ok (mk ip' firstIp lastIp mask [] None).

(** The same object with another list of subnets. *)
Definition with_subnets (n : t) (subnets : list t) : t :=
  mk (_ip n) (_firstIp n) (_lastIp n) (_mask n) subnets (_broadcastIp n).

(** [_subnets.clear()] *)
Definition clear_subnets (n : t) : t := with_subnets n [].

Definition push_back (n : t) (child : t) : t :=
  mk (_ip n) (_firstIp n) (_lastIp n) (_mask n) (_subnets n ++ [child])
     (_broadcastIp n).

(** A member function that may throw: the outcome and the state of the
    object when it returns or throws. *)
Definition method (A : Type) : Type := t -> result A * t.

(** [for (uint32_t i = first; ...; ++i) _subnets.push_back(new ...(child i))]
    for [count] iterations; the construction of a child may throw. *)
Fixpoint push_children (child : Z -> result t) (count : nat) (i : Z)
  : method unit :=
  fun this =>
    match count with
    | O => (Ok tt, this)
    | S count' =>
        match child i with
        | Throw e => (Throw e, this)
        | Ok c => push_children child count' (i + 1) (push_back this c)
        end
    end.

End Network.

(** ** network/ipv4_network.h, network/ipv4_network.cpp *)

Module IPv4Network.

(** The constructor [IPv4Network(ip, prefixLength)]. *)
Definition make (ip : IPAddress.t) (prefixLength : Z) : result Network.t :=
  n <- Network.make ip prefixLength ;;
  let broadcastIp := Network._lastIp n in
  Ok (Network.mk (Network._ip n) (Network._firstIp n)
        (IPAddress.operator_dec (Network._lastIp n))
        (Network._mask n) (Network._subnets n) (Some broadcastIp)).

(** The address of the subnet of index [i]: [increment * i] is computed
    in [uint32_t] and converted to the [int] parameter of [operator +=]. *)
Definition child (baseIp : IPAddress.t) (increment newPrefixLength i : Z)
  : result Network.t :=
  let newAddress :=
    IPAddress.operator_add baseIp (to_int (to_uint32 (increment * i))) in
  make newAddress newPrefixLength.

(** [segment]; [numberOfSubnets] is a [uint32_t].  [ceil(log2(n))] is
    [Z.log2_up n], its exact value for every [n >= 1] of that type. *)
Definition segment (numberOfSubnets : Z) : Network.method unit :=
  fun this =>
    if numberOfSubnets <? 1
    then (Throw (invalid_argument "Number of subnets must be greater than 0."), this)
    else if numberOfSubnets
            >? IPAddress.calculateCapacity (Network._ip this)
                 (Network.getPrefixLength this)
    then (Throw (invalid_argument
            "Number of subnets must be less than or equal to the capacity of the network."),
          this)
    else
      let newPrefixLength :=
        Network.getPrefixLength this + Z.log2_up numberOfSubnets in
      if newPrefixLength >? 32
      then (Throw (invalid_argument
              "Number of subnets is too large for the network."), this)
      else
        let increment := to_int (Z.shiftl 1 (32 - newPrefixLength)) in
        let this := Network.clear_subnets this in
        let baseIp := Network._ip this in
        Network.push_children (child baseIp increment newPrefixLength)
          (Z.to_nat numberOfSubnets) 0 this.

End IPv4Network.

(** ** network/ipv6_network.h, network/ipv6_network.cpp *)

Module IPv6Network.

(** The constructor [IPv6Network(ip, prefixLength)]. *)
Definition make (ip : IPAddress.t) (prefixLength : Z) : result Network.t :=
  Network.make ip prefixLength.

(** The increment vector of [segment]. *)
Definition increment_vector (bitsForSubnets : Z) : list Z :=
  set_nth (repeat 0 IPv6Address.IPV6_NUM_OCTETS)
    (Z.to_nat (15 - Z.quot bitsForSubnets (Z.of_nat IPv6Address.IPV6_NUM_HEXTETS)))
    (to_uint8 (Z.shiftl 1 (Z.rem bitsForSubnets (Z.of_nat IPv6Address.IPV6_NUM_HEXTETS)))).

(** [for (uint32_t j = 0; j < i; ++j) newAddress += increment;] *)
Fixpoint add_times (j : nat) (newAddress : IPAddress.t) (increment : list Z)
  : IPAddress.t :=
  match j with
  | O => newAddress
  | S j' => add_times j' (IPv6Address.operator_add newAddress increment) increment
  end.

Definition child (baseAddress : IPAddress.t) (increment : list Z)
    (newPrefixLength i : Z) : result Network.t :=
  make (add_times (Z.to_nat i) baseAddress increment) newPrefixLength.

Definition segment (numberOfSubnets : Z) : Network.method unit :=
  fun this =>
    if numberOfSubnets <? 1
    then (Throw (invalid_argument "Number of subnets must be greater than 0."), this)
    else if numberOfSubnets
            >? IPAddress.calculateCapacity (Network._ip this)
                 (Network.getPrefixLength this)
    then (Throw (invalid_argument
            "Number of subnets must be less than or equal to the capacity of the network."),
          this)
    else
      let newPrefixLength :=
        Network.getPrefixLength this + Z.log2_up numberOfSubnets in
      if newPrefixLength >? 128
      then (Throw (invalid_argument
              "The new prefix length exceeds the maximum length of 128 bits."), this)
      else
        let bitsForSubnets := 128 - newPrefixLength in
        let increment := increment_vector bitsForSubnets in
        let this := Network.clear_subnets this in
        let baseAddress := Network._ip this in
        Network.push_children (child baseAddress increment newPrefixLength)
          (Z.to_nat numberOfSubnets) 0 this.

End IPv6Network.

(** ** Dispatch on the address family *)

Definition width (k : IPAddress.family) : Z :=
  match k with IPAddress.IPv4 => 32 | IPAddress.IPv6 => 128 end.

Definition num_octets (k : IPAddress.family) : nat :=
  match k with
  | IPAddress.IPv4 => IPv4Address.IPV4_NUM_OCTETS
  | IPAddress.IPv6 => IPv6Address.IPV6_NUM_OCTETS
  end.

(** The constructor and the virtual [segment] of the network class of a
    family. *)
Definition make_network (k : IPAddress.family)
  : IPAddress.t -> Z -> result Network.t :=
  match k with
  | IPAddress.IPv4 => IPv4Network.make
  | IPAddress.IPv6 => IPv6Network.make
  end.

Definition segment (k : IPAddress.family) : Z -> Network.method unit :=
  match k with
  | IPAddress.IPv4 => IPv4Network.segment
  | IPAddress.IPv6 => IPv6Network.segment
  end.

(** The constructor of the address class of a family. *)
Definition make_address (k : IPAddress.family) : string -> result IPAddress.t :=
  match k with
  | IPAddress.IPv4 => IPv4Address.make
  | IPAddress.IPv6 => IPv6Address.make
  end.

(** An address of family [k] as its constructor builds it: the octet count
    of the family, every octet a [uint8_t]. *)
Definition well_formed (k : IPAddress.family) (ip : IPAddress.t) : bool :=
  match IPAddress.kind ip, k with
  | IPAddress.IPv4, IPAddress.IPv4 | IPAddress.IPv6, IPAddress.IPv6 => true
  | _, _ => false
  end
  && Nat.eqb (List.length (IPAddress._address ip)) (num_octets k)
  && is_octets (IPAddress._address ip).

Definition addr4 (a b c d : Z) : IPAddress.t :=
  IPAddress.mk IPAddress.IPv4 [a; b; c; d].
Definition addr6 (l : list Z) : IPAddress.t := IPAddress.mk IPAddress.IPv6 l.

(** ** Indexed access ([operator []]) *)

(** [to_string] of a [size_t]: at most 20 decimal digits. *)
Definition print_size_t (n : Z) : string := print_digits 20 10 n EmptyString.

(** The text of the [out_of_range] exceptions; [size - 1] is computed in
    [size_t]. *)
Definition index_message (size : Z) : string :=
  ("Index out of range, must be between 0 and "
   ++ print_size_t (to_size_t (size - 1)) ++ ".")%string.

(** [Mask::operator []] and [Mask::getOctet]; [index] is a [size_t]. *)
Definition Mask_subscript (m : Mask.t) (index : Z) : result Z :=
  if index >=? Mask.getSize m
  then Throw (out_of_range (index_message (Mask.getSize m)))
  else Ok (nth (Z.to_nat index) (Mask._maskOctets m) 0).

(** [IPAddress::operator []] and [IPAddress::getOctet]. *)
Definition IPAddress_subscript (ip : IPAddress.t) (index : Z) : result Z :=
  if index >=? IPAddress.getSize ip
  then Throw (out_of_range (index_message (IPAddress.getSize ip)))
  else Ok (nth (Z.to_nat index) (IPAddress._address ip) 0).

(** [IPv6Address::operator []] and [IPv6Address::getHextet]. *)
Definition IPv6Address_subscript (ip : IPAddress.t) (index : Z) : result Z :=
  if index >=? Z.of_nat IPv6Address.IPV6_NUM_HEXTETS
  then Throw (out_of_range
                (index_message (Z.of_nat IPv6Address.IPV6_NUM_HEXTETS)))
  else Ok (IPv6Address.hextet ip (Z.to_nat index)).

(** [Network::operator []] and [Network::getSubnet]; below the size the
    element exists, so the last branch is never taken. *)
Definition Network_subscript (n : Network.t) (index : Z) : result Network.t :=
  if index >=? Network.getSubnetCount n
  then Throw (out_of_range (index_message (Network.getSubnetCount n)))
  else
    match nth_error (Network._subnets n) (Z.to_nat index) with
    | Some c => Ok c
    | None => Throw (out_of_range (index_message (Network.getSubnetCount n)))
    end.

(** ** Vocabulary of the properties *)

(** What the base constructor builds when the prefix length is compatible. *)
Definition built (ip : IPAddress.t) (p : Z) : Network.t :=
  let mask := Mask.mk p (Mask.setMaskOctets p) in
  let ip' := IPAddress.operator_and ip mask in
  Network.mk ip' (IPAddress.operator_inc ip')
    (IPAddress.operator_or ip' (Mask.complement mask)) mask [] None.

(** What the constructor of the network class of family [k] builds. *)
Definition built_network (k : IPAddress.family) (ip : IPAddress.t) (p : Z)
  : Network.t :=
  match k with
  | IPAddress.IPv4 =>
      let n := built ip p in
      Network.mk (Network._ip n) (Network._firstIp n)
        (IPAddress.operator_dec (Network._lastIp n))
        (Network._mask n) [] (Some (Network._lastIp n))
  | IPAddress.IPv6 => built ip p
  end.

(** The indices [i], [i + 1], ... of [count] iterations. *)
Definition indices (i : Z) (count : nat) : list Z :=
  map (fun j => i + Z.of_nat j) (seq 0 count).

(** The address of the subnet of index [i]. *)
Definition child_address (k : IPAddress.family) (base : IPAddress.t)
    (newPrefixLength i : Z) : IPAddress.t :=
  match k with
  | IPAddress.IPv4 =>
      IPAddress.operator_add base
        (to_int (to_uint32 (to_int (Z.shiftl 1 (32 - newPrefixLength)) * i)))
  | IPAddress.IPv6 =>
      IPv6Network.add_times (Z.to_nat i) base
        (IPv6Network.increment_vector (128 - newPrefixLength))
  end.

(** The stored octets of [~mask]. *)
Definition inverted (m : list Z) : list Z := map (fun b => to_uint8 (Z.lnot b)) m.

(** A decimal text without leading zeros. *)
Definition canonical (s : string) : bool :=
  match s with
  | EmptyString => false
  | String c EmptyString => isdigit c
  | String c _ => isdigit c && negb (Ascii.eqb c "0")
  end.

Definition stoi_is (s : string) (v : Z) : bool :=
  match stoi s 10 with Ok w => w =? v | Throw _ => false end.

(** The tokens of a list joined by a delimiter. *)
Fixpoint join (d : string) (l : list string) : string :=
  match l with
  | [] => EmptyString
  | [x] => x
  | x :: rest => (x ++ d ++ join d rest)%string
  end.

(** The text [s] without its first [n] characters. *)
Fixpoint drop (n : nat) (s : string) : string :=
  match n, s with
  | O, _ => s
  | S _, EmptyString => EmptyString
  | S n', String _ s' => drop n' s'
  end.

(** [c] is a component that [IPv4Address::setAddress] accepts, of value
    [v]: not empty, digits only, at most 255. *)
Definition octet_text (c : string) (v : Z) : Prop :=
  empty c = false /\ all_of isdigit c = true /\ stoi c 10 = Ok v /\ v <= 255.

(** [c] is a group that [IPv6Address::setAddress] accepts, of value [v]:
    not empty, hexadecimal digits only, at most 0xFFFF. *)
Definition hextet_text (c : string) (v : Z) : Prop :=
  empty c = false /\ all_of isxdigit c = true /\ stoi c 16 = Ok v /\ v <= 65535.

(** Which of the eight groups of an address are zero. *)
Definition zero_groups (ip : IPAddress.t) : list bool :=
  map (fun i => IPv6Address.hextet ip i =? 0) (seq 0 IPv6Address.IPV6_NUM_HEXTETS).

(** Group [i] is zero according to the list [z]. *)
Definition zero_at (z : list bool) (i : Z) : bool := nth (Z.to_nat i) z false.

(** The scan of [findLongestZeroSequence] as a function of the zero groups
    only. *)
Definition zscan_step_of (z : list bool) (st : IPv6Address.zscan) (i : nat)
  : IPv6Address.zscan :=
  if nth i z false then
    IPv6Address.mkZ (IPv6Address.longestStart st) (IPv6Address.longestLength st)
      (if IPv6Address.currentStart st =? -1 then Z.of_nat i
       else IPv6Address.currentStart st)
      (IPv6Address.currentLength st + 1)
  else if IPv6Address.currentLength st >? IPv6Address.longestLength st
  then IPv6Address.mkZ (IPv6Address.currentStart st) (IPv6Address.currentLength st) (-1) 0
  else IPv6Address.mkZ (IPv6Address.longestStart st) (IPv6Address.longestLength st) (-1) 0.

Definition longest_of (z : list bool) : Z * Z :=
  let st := fold_left (zscan_step_of z) (seq 0 IPv6Address.IPV6_NUM_HEXTETS)
              (IPv6Address.mkZ (-1) 0 (-1) 0) in
  let st :=
    if IPv6Address.currentLength st >? IPv6Address.longestLength st
    then IPv6Address.mkZ (IPv6Address.currentStart st) (IPv6Address.currentLength st)
           (IPv6Address.currentStart st) (IPv6Address.currentLength st)
    else st in
  if IPv6Address.longestStart st =? -1 then (-1, -1)
  else (IPv6Address.longestStart st,
        IPv6Address.longestStart st + IPv6Address.longestLength st - 1).

(** The groups from [s] to [e] are all zero. *)
Definition all_zero (z : list bool) (s e : Z) : bool :=
  forallb (fun i => negb ((s <=? i) && (i <=? e)) || zero_at z i)
    (map Z.of_nat (seq 0 8)).

(** [(s, e)] is the first of the longest runs of zero groups of [z], or
    [(-1, -1)] when no group is zero; a candidate run is coded as
    [8 * start + end]. *)
Definition first_longest_run (z : list bool) (r : Z * Z) : bool :=
  let '(s, e) := r in
  if forallb negb z then (s =? -1) && (e =? -1)
  else
    (0 <=? s) && (s <=? e) && (e <=? 7) && all_zero z s e
    && forallb (fun c =>
                  let s' := c / 8 in
                  let e' := c mod 8 in
                  negb ((s' <=? e') && all_zero z s' e')
                  || (e' - s' <? e - s)
                  || ((e' - s' =? e - s) && (s <=? s')))
         (map Z.of_nat (seq 0 64)).

(** The text of group [i] as [print] writes it. *)
Definition group_text (ip : IPAddress.t) (i : nat) : string :=
  print_int 16 (IPv6Address.hextet ip i).

(** * Properties *)

(** ** Enumeration of small ranges *)

Lemma forallb_range (f : Z -> bool) (n : nat) :
  forallb f (map Z.of_nat (seq 0 n)) = true ->
  forall z, 0 <= z < Z.of_nat n -> f z = true.
Proof.
  intros H z Hz.
  rewrite forallb_forall in H. apply H.
  apply in_map_iff. exists (Z.to_nat z). split; [lia|].
  apply in_seq. lia.
Qed.

(** ** Octet vectors and their value *)

Lemma is_octet_spec b : is_octet b = true <-> 0 <= b < 256.
Proof. unfold is_octet. rewrite andb_true_iff, Z.leb_le, Z.ltb_lt. tauto. Qed.

Lemma is_octets_cons b l :
  is_octets (b :: l) = true <-> 0 <= b < 256 /\ is_octets l = true.
Proof.
  unfold is_octets. simpl. rewrite andb_true_iff, is_octet_spec. tauto.
Qed.

Lemma is_octets_app l1 l2 :
  is_octets (l1 ++ l2) = true <-> is_octets l1 = true /\ is_octets l2 = true.
Proof. unfold is_octets. rewrite forallb_app, andb_true_iff. tauto. Qed.

Lemma is_octets_rev l : is_octets (rev l) = is_octets l.
Proof.
  induction l as [|b l IH]; [reflexivity|].
  simpl rev. destruct (is_octets (b :: l)) eqn:E.
  - apply is_octets_cons in E. apply is_octets_app. rewrite IH.
    split; [tauto|]. apply is_octets_cons. tauto.
  - destruct (is_octets (rev l ++ [b])) eqn:E'; [|reflexivity].
    apply is_octets_app in E'. rewrite IH in E'. destruct E' as [E1 E2].
    apply is_octets_cons in E2.
    assert (is_octets (b :: l) = true) by (apply is_octets_cons; tauto).
    congruence.
Qed.

Lemma is_octets_repeat b n : 0 <= b < 256 -> is_octets (repeat b n) = true.
Proof.
  intros Hb. induction n as [|n IH]; [reflexivity|].
  simpl. apply is_octets_cons. tauto.
Qed.

Lemma value_fold l acc :
  fold_left (fun a b => a * 256 + b) l acc
  = acc * 256 ^ Z.of_nat (List.length l) + value l.
Proof.
  unfold value. revert acc.
  induction l as [|b l IH]; intros acc.
  - simpl. lia.
  - cbn [fold_left List.length].
    rewrite (IH (acc * 256 + b)), (IH (0 * 256 + b)).
    rewrite Nat2Z.inj_succ, Z.pow_succ_r by lia. ring.
Qed.

Lemma value_cons b l :
  value (b :: l) = b * 256 ^ Z.of_nat (List.length l) + value l.
Proof. unfold value at 1. cbn [fold_left]. rewrite value_fold. ring. Qed.

Lemma value_snoc l b : value (l ++ [b]) = value l * 256 + b.
Proof. unfold value. rewrite fold_left_app. reflexivity. Qed.

Lemma value_rev r : value (rev r) = value_le r.
Proof.
  induction r as [|b r IH]; [reflexivity|].
  cbn [rev value_le]. rewrite value_snoc, IH. ring.
Qed.

Lemma value_le_rev l : value_le (rev l) = value l.
Proof. rewrite <- value_rev, rev_involutive. reflexivity. Qed.

Lemma value_le_bounds r :
  is_octets r = true -> 0 <= value_le r < 256 ^ Z.of_nat (List.length r).
Proof.
  induction r as [|b r IH]; intros H.
  - simpl. lia.
  - apply is_octets_cons in H. destruct H as [Hb Hr].
    specialize (IH Hr). cbn [value_le List.length].
    rewrite Nat2Z.inj_succ, Z.pow_succ_r by lia. lia.
Qed.

Lemma value_bounds l :
  is_octets l = true -> 0 <= value l < 256 ^ Z.of_nat (List.length l).
Proof.
  intros H. rewrite <- value_le_rev, <- length_rev.
  apply value_le_bounds. rewrite is_octets_rev. exact H.
Qed.

Lemma getSize_with_address ip v :
  IPAddress.getSize (IPAddress.with_address ip v) = Z.of_nat (List.length v).
Proof. reflexivity. Qed.

(** ** The scans of [ip_address.cpp] *)

Lemma inc_scan_length r : List.length (IPAddress.inc_scan r) = List.length r.
Proof.
  induction r as [|o r IH]; [reflexivity|].
  simpl. destruct (negb (o =? 255)); simpl; congruence.
Qed.

Lemma dec_scan_length r : List.length (IPAddress.dec_scan r) = List.length r.
Proof.
  induction r as [|o r IH]; [reflexivity|].
  simpl. destruct (negb (o =? 0)); simpl; congruence.
Qed.

Lemma add_scan_length r c : List.length (IPAddress.add_scan r c) = List.length r.
Proof.
  revert c. induction r as [|o r IH]; intros c; [reflexivity|].
  simpl. destruct (c =? 0); simpl; [reflexivity|]. rewrite IH. reflexivity.
Qed.

Lemma sub_scan_length r c : List.length (IPAddress.sub_scan r c) = List.length r.
Proof.
  revert c. induction r as [|o r IH]; intros c; [reflexivity|].
  simpl. destruct (c =? 0); simpl; [reflexivity|]. rewrite IH. reflexivity.
Qed.

Lemma and_scan_length a m : List.length (IPAddress.and_scan a m) = List.length a.
Proof.
  revert m. induction a as [|o a IH]; intros m; [reflexivity|].
  destruct m; simpl; rewrite IH; reflexivity.
Qed.

Lemma or_scan_length a m : List.length (IPAddress.or_scan a m) = List.length a.
Proof.
  revert m. induction a as [|o a IH]; intros m; [reflexivity|].
  destruct m; simpl; rewrite IH; reflexivity.
Qed.

(** When the least significant octet is not at the extreme value, the scan
    stops at once and the value moves by one. *)
Lemma inc_scan_value o r :
  o <> 255 -> 0 <= o < 256 ->
  IPAddress.inc_scan (o :: r) = (o + 1) :: r.
Proof.
  intros Hn Ho. simpl. destruct (Z.eqb_spec o 255); [contradiction|].
  simpl. unfold to_uint8. rewrite Z.mod_small by lia. reflexivity.
Qed.

Lemma dec_scan_value o r :
  o <> 0 -> 0 <= o < 256 ->
  IPAddress.dec_scan (o :: r) = (o - 1) :: r.
Proof.
  intros Hn Ho. simpl. destruct (Z.eqb_spec o 0); [contradiction|].
  simpl. unfold to_uint8. rewrite Z.mod_small by lia. reflexivity.
Qed.

Lemma add_scan_octets r c :
  is_octets r = true -> is_octets (IPAddress.add_scan r c) = true.
Proof.
  revert c. induction r as [|o r IH]; intros c H; [reflexivity|].
  simpl. destruct (c =? 0); [exact H|].
  apply is_octets_cons in H. apply is_octets_cons. split.
  - unfold to_uint8. apply Z.mod_pos_bound. lia.
  - apply IH. tauto.
Qed.

(** Adding a non-negative [int] is addition modulo the width of the
    vector. *)
Lemma add_scan_value r c :
  is_octets r = true -> 0 <= c ->
  value_le (IPAddress.add_scan r c)
  = (value_le r + c) mod 256 ^ Z.of_nat (List.length r).
Proof.
  revert c. induction r as [|o r IH]; intros c H Hc.
  - simpl. rewrite Z.mod_1_r. reflexivity.
  - pose proof (value_le_bounds _ H) as Hb.
    apply is_octets_cons in H. destruct H as [Ho Hr].
    cbn [IPAddress.add_scan]. destruct (Z.eqb_spec c 0) as [->|Hc0].
    + rewrite Z.add_0_r, Z.mod_small by exact Hb. reflexivity.
    + cbn [value_le List.length].
      rewrite Z.rem_mod_nonneg, Z.quot_div_nonneg by lia.
      rewrite IH by (try assumption; apply Z.div_pos; lia).
      unfold to_uint8. rewrite Z.mod_mod by lia.
      rewrite Nat2Z.inj_succ, Z.pow_succ_r by lia.
      set (M := 256 ^ Z.of_nat (List.length r)).
      assert (HM : 0 < M) by (apply Z.pow_pos_nonneg; lia).
      rewrite (Z.rem_mul_r (o + 256 * value_le r + c) 256 M) by lia.
      replace (o + 256 * value_le r + c) with ((o + c) + value_le r * 256) by ring.
      rewrite Z.mod_add, Z.div_add by lia.
      f_equal. f_equal. f_equal. ring.
Qed.

(** ** The scans of [IPv6Address::operator +=] *)

Lemma land_255 z : 0 <= z -> Z.land z 255 = z mod 256.
Proof. intros _. change 255 with (Z.ones 8). rewrite Z.land_ones by lia. reflexivity. Qed.

Lemma shiftr_8 z : Z.shiftr z 8 = z / 256.
Proof. rewrite Z.shiftr_div_pow2 by lia. reflexivity. Qed.

Lemma carry_scan_sum a c :
  is_octets a = true -> 0 <= c <= 1 ->
  value_le a + c < 256 ^ Z.of_nat (List.length a) ->
  List.length (IPv6Address.carry_scan a c) = List.length a
  /\ value_le (IPv6Address.carry_scan a c) = value_le a + c
  /\ is_octets (IPv6Address.carry_scan a c) = true.
Proof.
  revert c. induction a as [|o a IH]; intros c H Hc Hlt.
  - simpl in Hlt. assert (c = 0) by lia. subst c. simpl. auto.
  - pose proof H as H'. apply is_octets_cons in H'. destruct H' as [Ho Ha].
    pose proof (value_le_bounds _ Ha) as Hb.
    cbn [IPv6Address.carry_scan]. destruct (Z.eqb_spec c 0) as [->|Hc0].
    + rewrite Z.add_0_r. auto.
    + cbn [value_le List.length] in *.
      rewrite Nat2Z.inj_succ, Z.pow_succ_r in Hlt by lia.
      rewrite land_255, shiftr_8 by lia.
      assert (Hq : 0 <= (c + o) / 256 <= 1).
      { split; [apply Z.div_pos; lia|].
        apply Z.lt_succ_r. apply Z.div_lt_upper_bound; lia. }
      pose proof (Z.div_mod (c + o) 256 ltac:(lia)) as Hdm.
      pose proof (Z.mod_pos_bound (c + o) 256 ltac:(lia)) as Hm.
      destruct (IH ((c + o) / 256) Ha Hq ltac:(lia)) as (IH1 & IH2 & IH3).
      rewrite IH1, IH2. split; [reflexivity|]. split; [lia|].
      apply is_octets_cons. split; [|exact IH3].
      apply Z.mod_pos_bound. lia.
Qed.

Lemma add_scan6_sum inc a c :
  is_octets inc = true -> is_octets a = true -> 0 <= c <= 1 ->
  (List.length inc <= List.length a)%nat ->
  value_le inc + value_le a + c < 256 ^ Z.of_nat (List.length a) ->
  List.length (IPv6Address.add_scan inc a c) = List.length a
  /\ value_le (IPv6Address.add_scan inc a c) = value_le inc + value_le a + c
  /\ is_octets (IPv6Address.add_scan inc a c) = true.
Proof.
  revert a c. induction inc as [|x inc IH]; intros a c Hi Ha Hc Hlen Hlt.
  - cbn [IPv6Address.add_scan value_le] in *.
    destruct (carry_scan_sum a c Ha Hc ltac:(lia)) as (H1 & H2 & H3).
    rewrite H1, H2. auto.
  - destruct a as [|o a]; [simpl in Hlen; lia|].
    apply is_octets_cons in Hi. destruct Hi as [Hx Hi].
    apply is_octets_cons in Ha. destruct Ha as [Ho Ha].
    pose proof (value_le_bounds _ Ha) as Hb.
    pose proof (value_le_bounds _ Hi) as Hbi.
    cbn [IPv6Address.add_scan value_le List.length] in *.
    rewrite Nat2Z.inj_succ, Z.pow_succ_r in Hlt by lia.
    rewrite land_255, shiftr_8 by lia.
    assert (Hq : 0 <= (c + x + o) / 256 <= 1).
    { split; [apply Z.div_pos; lia|].
      apply Z.lt_succ_r. apply Z.div_lt_upper_bound; lia. }
    pose proof (Z.div_mod (c + x + o) 256 ltac:(lia)) as Hdm.
    pose proof (Z.mod_pos_bound (c + x + o) 256 ltac:(lia)) as Hm.
    destruct (IH a ((c + x + o) / 256) Hi Ha Hq ltac:(lia) ltac:(lia))
      as (IH1 & IH2 & IH3).
    rewrite IH1, IH2. split; [reflexivity|]. split; [lia|].
    apply is_octets_cons. split; [|exact IH3].
    apply Z.mod_pos_bound. lia.
Qed.

(** ** Increment and decrement by one *)

(** C3 (the code departs from the claim): incrementing 0.0.0.255 yields
    0.0.1.255, not the value plus one 0.0.1.0, and decrementing 0.0.1.0
    yields 0.0.0.0, not the value minus one 0.0.0.255: an octet at the
    extreme value is passed over without being wrapped to the opposite
    extreme. *)
Theorem increment_decrement_leave_extreme_octets :
  IPAddress.operator_inc (addr4 0 0 0 255) = addr4 0 0 1 255
  /\ IPAddress.to_Z (IPAddress.operator_inc (addr4 0 0 0 255))
     <> (IPAddress.to_Z (addr4 0 0 0 255) + 1) mod 2 ^ 32
  /\ IPAddress.operator_dec (addr4 0 0 1 0) = addr4 0 0 0 0
  /\ IPAddress.to_Z (IPAddress.operator_dec (addr4 0 0 1 0))
     <> (IPAddress.to_Z (addr4 0 0 1 0) - 1) mod 2 ^ 32.
Proof.
  repeat split; try reflexivity; vm_compute; discriminate.
Qed.

(** ** Subtraction of an integer *)

(** C7 (the code departs from the claim): 1.2.3.4 minus 5 yields 1.2.3.255
    instead of 1.2.2.255, and 1.2.3.4 minus 256 yields 1.2.3.4 instead of
    1.2.2.4: the quotient of the negative difference is truncated towards
    zero, so no borrow reaches the next octet. *)
Theorem subtraction_loses_the_borrow :
  IPAddress.operator_sub (addr4 1 2 3 4) 5 = addr4 1 2 3 255
  /\ IPAddress.to_Z (IPAddress.operator_sub (addr4 1 2 3 4) 5)
     <> (IPAddress.to_Z (addr4 1 2 3 4) - 5) mod 2 ^ 32
  /\ IPAddress.operator_sub (addr4 1 2 3 4) 256 = addr4 1 2 3 4
  /\ IPAddress.to_Z (IPAddress.operator_sub (addr4 1 2 3 4) 256)
     <> (IPAddress.to_Z (addr4 1 2 3 4) - 256) mod 2 ^ 32.
Proof.
  repeat split; try reflexivity; vm_compute; discriminate.
Qed.

(** ** Capacity *)

(** C4: for an address of either family [calculateCapacity p] is
    [2 ^ (32 - p)] when [1 <= p < 32] and 65536 when [p >= 32]; the result
    does not depend on the address. *)
Theorem calculateCapacity_formula (ip : IPAddress.t) (p : Z) :
  1 <= p ->
  IPAddress.calculateCapacity ip p
  = if p <? 32 then 2 ^ (32 - p) else 65536.
Proof.
  intros Hp. unfold IPAddress.calculateCapacity.
  destruct (Z.ltb_spec p 32) as [Hlt|Hge].
  - destruct (Z.geb_spec p 32) as [?|_]; [lia|].
    pose proof (forallb_range
      (fun q => (q =? 0)
                || (to_uint32 (to_int (Z.shiftl 1 (32 - q))) =? 2 ^ (32 - q)))
      32 ltac:(vm_compute; reflexivity) p) as H.
    cbv beta in H. change (Z.of_nat 32) with 32 in H.
    specialize (H ltac:(lia)).
    destruct (Z.eqb_spec p 0) as [?|_]; [lia|].
    apply Z.eqb_eq in H. exact H.
  - destruct (Z.geb_spec p 32) as [_|?]; [reflexivity|lia].
Qed.

Lemma calculateCapacity_formula_witness :
  IPAddress.calculateCapacity (addr6 (repeat 0 16)) 24 = 256
  /\ IPAddress.calculateCapacity (addr4 1 2 3 4) 24 = 256
  /\ IPAddress.calculateCapacity (addr6 (repeat 0 16)) 64 = 65536.
Proof.
  split; [|split].
  - rewrite (calculateCapacity_formula (addr6 (repeat 0 16)) 24); [reflexivity|lia].
  - rewrite (calculateCapacity_formula (addr4 1 2 3 4) 24); [reflexivity|lia].
  - rewrite (calculateCapacity_formula (addr6 (repeat 0 16)) 64); [reflexivity|lia].
Defined.

(** ** Length of an address *)

(** C9 as stated fails: adding the octet sequence 0,...,0,1 to the IPv6
    address whose 16 octets are all 255 leaves an address of 17 octets. *)
Lemma sequence_addition_lengthens :
  IPAddress.getSize
    (IPv6Address.operator_add (addr6 (repeat 255 16)) (repeat 0 15 ++ [1]))
  <> IPAddress.getSize (addr6 (repeat 255 16)).
Proof. vm_compute. discriminate. Qed.

(** C9 (amended): increment, decrement, addition and subtraction of an
    integer, mask AND and mask OR keep the number of octets of the address;
    addition of an octet sequence keeps it when the sequence is no longer
    than the address and the sum is below [256 ^ length]. *)
Theorem size_preserved (ip : IPAddress.t) :
  IPAddress.getSize (IPAddress.operator_inc ip) = IPAddress.getSize ip
  /\ IPAddress.getSize (IPAddress.operator_dec ip) = IPAddress.getSize ip
  /\ (forall n, IPAddress.getSize (IPAddress.operator_add ip n) = IPAddress.getSize ip)
  /\ (forall n, IPAddress.getSize (IPAddress.operator_sub ip n) = IPAddress.getSize ip)
  /\ (forall m, IPAddress.getSize (IPAddress.operator_and ip m) = IPAddress.getSize ip)
  /\ (forall m, IPAddress.getSize (IPAddress.operator_or ip m) = IPAddress.getSize ip)
  /\ (forall inc,
        is_octets (IPAddress._address ip) = true ->
        is_octets inc = true ->
        Z.of_nat (List.length inc) <= IPAddress.getSize ip ->
        IPAddress.to_Z ip + value inc < 256 ^ IPAddress.getSize ip ->
        IPAddress.getSize (IPv6Address.operator_add ip inc) = IPAddress.getSize ip).
Proof.
  unfold IPAddress.operator_inc, IPAddress.operator_dec, IPAddress.operator_add,
    IPAddress.operator_sub, IPAddress.operator_and, IPAddress.operator_or,
    IPv6Address.operator_add.
  repeat split; intros; rewrite getSize_with_address; unfold IPAddress.getSize in *.
  - now rewrite length_rev, inc_scan_length, length_rev.
  - now rewrite length_rev, dec_scan_length, length_rev.
  - now rewrite length_rev, add_scan_length, length_rev.
  - now rewrite length_rev, sub_scan_length, length_rev.
  - now rewrite and_scan_length.
  - now rewrite or_scan_length.
  - rewrite length_rev.
    destruct (add_scan6_sum (rev inc) (rev (IPAddress._address ip)) 0) as (Hl & _).
    + now rewrite is_octets_rev.
    + now rewrite is_octets_rev.
    + lia.
    + rewrite !length_rev. lia.
    + rewrite !value_le_rev, length_rev. unfold IPAddress.to_Z in *. lia.
    + rewrite Hl, length_rev. reflexivity.
Qed.

Lemma size_preserved_witness :
  IPAddress.getSize
    (IPv6Address.operator_add (addr6 (repeat 0 15 ++ [255])) (repeat 0 15 ++ [1]))
  = 16.
Proof.
  destruct (size_preserved (addr6 (repeat 0 15 ++ [255])))
    as (_ & _ & _ & _ & _ & _ & H).
  rewrite (H (repeat 0 15 ++ [1])); [reflexivity | reflexivity | reflexivity | | ].
  - vm_compute. discriminate.
  - vm_compute. reflexivity.
Defined.

(** ** Rendering of IPv6 addresses *)

(** C5 (the code departs from the claim): when the longest run of zero
    groups starts at the first group, [print] writes one colon in its
    place, not two: the address ::1 is printed as ":1" and the all-zero
    address as ":". *)
Theorem print_single_colon_for_leading_run :
  IPv6Address.make "::1" = Ok (addr6 (repeat 0 15 ++ [1]))
  /\ IPv6Address.findLongestZeroSequence (addr6 (repeat 0 15 ++ [1])) = (0, 6)
  /\ IPv6Address.print (addr6 (repeat 0 15 ++ [1])) = ":1"%string
  /\ IPv6Address.print (addr6 (repeat 0 16)) = ":"%string.
Proof. repeat split; vm_compute; reflexivity. Qed.

(** ** Parsing of IPv6 addresses *)

(** C6 (the code departs from the claim): a text with two compression
    tokens, "1::2::3", is parsed as the address 1::2, and a text with nine
    groups around its compression token, "1:2:3:4:5:6:7:8::9", is parsed as
    the address 1:2:3:4:5:6:7:9. *)
Theorem setAddress_accepts_malformed_compression :
  IPv6Address.make "1::2::3"
  = Ok (addr6 [0; 1; 0; 0; 0; 0; 0; 0; 0; 0; 0; 0; 0; 0; 0; 2])
  /\ IPv6Address.make "1:2:3:4:5:6:7:8::9"
     = Ok (addr6 [0; 1; 0; 2; 0; 3; 0; 4; 0; 5; 0; 6; 0; 7; 0; 9]).
Proof. split; vm_compute; reflexivity. Qed.

(** ** Construction of networks *)

Lemma kind_with_address ip v :
  IPAddress.kind (IPAddress.with_address ip v) = IPAddress.kind ip.
Proof. reflexivity. Qed.

Lemma isPrefixLengthCompatible_range ip p :
  Network.isPrefixLengthCompatible ip p = true <->
  1 <= p <= width (IPAddress.kind ip).
Proof.
  unfold Network.isPrefixLengthCompatible, IPv4Address.isPrefixLengthCompatible,
    IPv6Address.isPrefixLengthCompatible, width.
  destruct (IPAddress.kind ip); rewrite andb_true_iff, Z.geb_le, Z.leb_le; tauto.
Qed.

Lemma width_le_128 k : width k <= 128.
Proof. destruct k; simpl; lia. Qed.

Lemma Mask_make_ok p :
  1 <= p <= 128 -> Mask.make p = Ok (Mask.mk p (Mask.setMaskOctets p)).
Proof.
  intros Hp. unfold Mask.make, Mask.isValidPrefixLength,
    Mask.MASK_MIN_PREFIX, Mask.MASK_MAX_PREFIX.
  destruct (Z.geb_spec p 1); [|lia]. destruct (Z.leb_spec p 128); [|lia].
  reflexivity.
Qed.

Lemma Network_make_ok ip p :
  1 <= p <= width (IPAddress.kind ip) -> Network.make ip p = Ok (built ip p).
Proof.
  intros Hp. unfold Network.make.
  rewrite (proj2 (isPrefixLengthCompatible_range ip p) Hp). cbn [negb].
  pose proof (width_le_128 (IPAddress.kind ip)).
  rewrite Mask_make_ok by lia. reflexivity.
Qed.

Lemma Network_make_inv ip p net :
  Network.make ip p = Ok net ->
  1 <= p <= width (IPAddress.kind ip) /\ net = built ip p.
Proof.
  intros H. unfold Network.make in H.
  destruct (Network.isPrefixLengthCompatible ip p) eqn:E; [|discriminate].
  apply isPrefixLengthCompatible_range in E. split; [exact E|].
  cbn [negb] in H.
  pose proof (width_le_128 (IPAddress.kind ip)).
  rewrite Mask_make_ok in H by lia. cbn [bind] in H.
  injection H as <-. reflexivity.
Qed.

Lemma make_network_ok k ip p :
  1 <= p <= width (IPAddress.kind ip) ->
  make_network k ip p = Ok (built_network k ip p).
Proof.
  intros Hp. destruct k; unfold make_network, IPv4Network.make, IPv6Network.make;
    rewrite Network_make_ok by assumption; reflexivity.
Qed.

Lemma make_network_inv k ip p net :
  make_network k ip p = Ok net ->
  1 <= p <= width (IPAddress.kind ip) /\ net = built_network k ip p.
Proof.
  intros H.
  assert (Hp : 1 <= p <= width (IPAddress.kind ip)).
  { destruct k; unfold make_network, IPv4Network.make, IPv6Network.make in H;
      destruct (Network.make ip p) eqn:E; try discriminate;
      apply Network_make_inv in E; tauto. }
  split; [exact Hp|]. rewrite make_network_ok in H by exact Hp.
  injection H as <-. reflexivity.
Qed.

Lemma built_network_ip k ip p :
  Network._ip (built_network k ip p)
  = IPAddress.operator_and ip (Mask.mk p (Mask.setMaskOctets p)).
Proof. destruct k; reflexivity. Qed.

Lemma built_network_prefix k ip p :
  Network.getPrefixLength (built_network k ip p) = p.
Proof. destruct k; reflexivity. Qed.

(** ** The loop that builds the subnets *)

Lemma indices_succ i count :
  indices i (S count) = i :: indices (i + 1) count.
Proof.
  unfold indices. cbn [seq map]. rewrite Z.add_0_r. f_equal.
  rewrite <- seq_shift, map_map. apply map_ext. intros j. lia.
Qed.

Lemma with_subnets_same n : Network.with_subnets n (Network._subnets n) = n.
Proof. destruct n. reflexivity. Qed.

Lemma push_children_all (child : Z -> result Network.t) (f : Z -> Network.t)
    (count : nat) (i : Z) (this : Network.t) :
  (forall j, i <= j < i + Z.of_nat count -> child j = Ok (f j)) ->
  Network.push_children child count i this
  = (Ok tt,
     Network.with_subnets this (Network._subnets this ++ map f (indices i count))).
Proof.
  revert i this. induction count as [|count IH]; intros i this H.
  - simpl. rewrite app_nil_r, with_subnets_same. reflexivity.
  - cbn [Network.push_children]. rewrite (H i) by lia.
    rewrite IH by (intros j Hj; apply H; lia).
    rewrite indices_succ. cbn [map]. destruct this. cbn.
    unfold Network.with_subnets. cbn. rewrite <- app_assoc. reflexivity.
Qed.

(** ** Segmentation *)

Lemma add_times_kind j ip inc :
  IPAddress.kind (IPv6Network.add_times j ip inc) = IPAddress.kind ip.
Proof.
  revert ip. induction j as [|j IH]; intros ip; [reflexivity|].
  cbn [IPv6Network.add_times]. rewrite IH. reflexivity.
Qed.

Lemma child_address_kind k base np i :
  IPAddress.kind (child_address k base np i) = IPAddress.kind base.
Proof. destruct k; [reflexivity|apply add_times_kind]. Qed.

(** Once the three checks have passed, [segment] replaces the subnets by
    one network per index and does not throw. *)
Lemma segment_run k a p subs n :
  IPAddress.kind a = k -> 1 <= p <= width k ->
  1 <= n -> n <= IPAddress.calculateCapacity (Network._ip (built_network k a p)) p ->
  p + Z.log2_up n <= width k ->
  segment k n (Network.with_subnets (built_network k a p) subs)
  = (Ok tt,
     Network.with_subnets (built_network k a p)
       (map (fun i =>
               built_network k
                 (child_address k (Network._ip (built_network k a p))
                    (p + Z.log2_up n) i)
                 (p + Z.log2_up n))
            (indices 0 (Z.to_nat n)))).
Proof.
  intros Hk Hp Hn Hcap Hnp.
  pose proof (Z.log2_up_nonneg n) as Hlog.
  set (np := p + Z.log2_up n) in *.
  set (base := Network._ip (built_network k a p)) in *.
  assert (Hnp1 : 1 <= np) by (unfold np; lia).
  assert (Hbase : IPAddress.kind base = k).
  { unfold base. rewrite built_network_ip. exact Hk. }
  destruct k.
  - unfold segment, IPv4Network.segment.
    destruct (Z.ltb_spec n 1) as [?|_]; [lia|].
    replace (Network.getPrefixLength
               (Network.with_subnets (built_network IPAddress.IPv4 a p) subs))
      with p by reflexivity.
    change (Network._ip (Network.with_subnets (built_network IPAddress.IPv4 a p) subs))
      with base.
    destruct (Z.gtb_spec n (IPAddress.calculateCapacity base p)) as [?|_]; [lia|].
    fold np. destruct (Z.gtb_spec np 32) as [?|_]; [cbn [width] in Hnp; lia|].
    cbv zeta.
    rewrite (push_children_all _
      (fun i => built_network IPAddress.IPv4
                  (child_address IPAddress.IPv4 base np i) np)).
    + reflexivity.
    + intros j _. unfold IPv4Network.child.
      change IPv4Network.make with (make_network IPAddress.IPv4).
      apply make_network_ok.
      change (1 <= np <= width (IPAddress.kind
                                  (child_address IPAddress.IPv4 base np j))).
      rewrite child_address_kind, Hbase. exact (conj Hnp1 Hnp).
  - unfold segment, IPv6Network.segment.
    destruct (Z.ltb_spec n 1) as [?|_]; [lia|].
    replace (Network.getPrefixLength
               (Network.with_subnets (built_network IPAddress.IPv6 a p) subs))
      with p by reflexivity.
    change (Network._ip (Network.with_subnets (built_network IPAddress.IPv6 a p) subs))
      with base.
    destruct (Z.gtb_spec n (IPAddress.calculateCapacity base p)) as [?|_]; [lia|].
    fold np. destruct (Z.gtb_spec np 128) as [?|_]; [cbn [width] in Hnp; lia|].
    cbv zeta.
    rewrite (push_children_all _
      (fun i => built_network IPAddress.IPv6
                  (child_address IPAddress.IPv6 base np i) np)).
    + reflexivity.
    + intros j _. unfold IPv6Network.child.
      change IPv6Network.make with (make_network IPAddress.IPv6).
      apply make_network_ok.
      change (1 <= np <= width (IPAddress.kind
                                  (child_address IPAddress.IPv6 base np j))).
      rewrite child_address_kind, Hbase. exact (conj Hnp1 Hnp).
Qed.

(** C10: when [segment] throws on a network built by its constructor
    (whatever subnets an earlier call left in it), the network is exactly
    as before the call, and one of the three checks has failed: the count
    is below 1, above the capacity of the current prefix length, or the new
    prefix length is above the maximum of the family. *)
Theorem segment_failure_atomic (k : IPAddress.family) (a : IPAddress.t)
    (p n : Z) (net0 : Network.t) (subs : list Network.t) (e : exn) :
  IPAddress.kind a = k ->
  make_network k a p = Ok net0 ->
  fst (segment k n (Network.with_subnets net0 subs)) = Throw e ->
  snd (segment k n (Network.with_subnets net0 subs)) = Network.with_subnets net0 subs
  /\ (n < 1
      \/ n > IPAddress.calculateCapacity (Network._ip net0) p
      \/ p + Z.log2_up n > width k).
Proof.
  intros Hk Hmake Hthrow.
  apply make_network_inv in Hmake. destruct Hmake as [Hp ->].
  rewrite Hk in Hp.
  destruct (Z.ltb_spec n 1) as [Hn|Hn].
  { split; [|lia]. destruct k; unfold segment, IPv4Network.segment,
      IPv6Network.segment; destruct (Z.ltb_spec n 1); try lia; reflexivity. }
  destruct (Z.gtb_spec n (IPAddress.calculateCapacity
                            (Network._ip (built_network k a p)) p)) as [Hc|Hc].
  { split; [|lia]. destruct k; unfold segment, IPv4Network.segment,
      IPv6Network.segment; (destruct (Z.ltb_spec n 1); [lia|]);
      change (Network.getPrefixLength (Network.with_subnets ?x subs))
        with (Network.getPrefixLength x);
      change (Network._ip (Network.with_subnets ?x subs)) with (Network._ip x);
      rewrite built_network_prefix;
      match goal with |- context [?x >? ?y] => destruct (Z.gtb_spec x y) end;
      try lia; reflexivity. }
  destruct (Z_le_gt_dec (p + Z.log2_up n) (width k)) as [Hw|Hw].
  { rewrite segment_run in Hthrow by assumption. discriminate. }
  split; [|lia].
  destruct k; unfold segment, IPv4Network.segment, IPv6Network.segment;
    (destruct (Z.ltb_spec n 1); [lia|]);
    change (Network.getPrefixLength (Network.with_subnets ?x subs))
      with (Network.getPrefixLength x);
    change (Network._ip (Network.with_subnets ?x subs)) with (Network._ip x);
    rewrite built_network_prefix;
    (match goal with |- context [?x >? IPAddress.calculateCapacity ?y ?z] =>
       destruct (Z.gtb_spec x (IPAddress.calculateCapacity y z)) end; [lia|]);
    cbv zeta;
    match goal with |- context [?x >? ?y] => destruct (Z.gtb_spec x y) end;
    simpl in Hw; try lia; reflexivity.
Qed.

Lemma segment_failure_atomic_witness :
  snd (segment IPAddress.IPv4 300
         (Network.with_subnets
            (built_network IPAddress.IPv4 (addr4 1 2 3 4) 24)
            [built_network IPAddress.IPv4 (addr4 9 9 9 0) 30]))
  = Network.with_subnets
      (built_network IPAddress.IPv4 (addr4 1 2 3 4) 24)
      [built_network IPAddress.IPv4 (addr4 9 9 9 0) 30].
Proof.
  apply (segment_failure_atomic IPAddress.IPv4 (addr4 1 2 3 4) 24 300
           (built_network IPAddress.IPv4 (addr4 1 2 3 4) 24)
           [built_network IPAddress.IPv4 (addr4 9 9 9 0) 30]
           (invalid_argument
              "Number of subnets must be less than or equal to the capacity of the network.")).
  - reflexivity.
  - vm_compute. reflexivity.
  - vm_compute. reflexivity.
Defined.

(** ** Masks *)

Lemma pow_256 n : 0 <= n -> 256 ^ n = 2 ^ (8 * n).
Proof. intros Hn. rewrite Z.pow_mul_r by lia. reflexivity. Qed.

Lemma setMaskOctets_loop_fuel f1 f2 p :
  (Z.to_nat p <= f1)%nat -> (Z.to_nat p <= f2)%nat ->
  Mask.setMaskOctets_loop f1 p = Mask.setMaskOctets_loop f2 p.
Proof.
  revert f2 p. induction f1 as [|f1 IH]; intros f2 p H1 H2.
  - destruct f2 as [|f2]; [reflexivity|]. simpl.
    destruct (Z.gtb_spec p 0); [lia|reflexivity].
  - destruct f2 as [|f2]; simpl.
    + destruct (Z.gtb_spec p 0); [lia|reflexivity].
    + destruct (Z.gtb_spec p 0); [|reflexivity].
      destruct (Z.geb_spec p 8); [|reflexivity].
      f_equal. apply IH; lia.
Qed.

Lemma setMaskOctets_zero : Mask.setMaskOctets 0 = [].
Proof. reflexivity. Qed.

Lemma setMaskOctets_partial p :
  0 < p < 8 -> Mask.setMaskOctets p = [to_uint8 (Z.shiftl 255 (8 - p))].
Proof.
  intros Hp. unfold Mask.setMaskOctets.
  destruct (Z.to_nat p) as [|f] eqn:E; [lia|]. simpl.
  destruct (Z.gtb_spec p 0); [|lia]. destruct (Z.geb_spec p 8); [lia|reflexivity].
Qed.

Lemma setMaskOctets_full p :
  8 <= p -> Mask.setMaskOctets p = 255 :: Mask.setMaskOctets (p - 8).
Proof.
  intros Hp. unfold Mask.setMaskOctets.
  destruct (Z.to_nat p) as [|f] eqn:E; [lia|]. simpl.
  destruct (Z.gtb_spec p 0); [|lia]. destruct (Z.geb_spec p 8); [|lia].
  f_equal. apply setMaskOctets_loop_fuel; lia.
Qed.

Lemma and_scan_exhausted a : IPAddress.and_scan a [] = repeat 0 (List.length a).
Proof. induction a as [|o a IH]; [reflexivity|]. simpl. rewrite IH. reflexivity. Qed.

Lemma or_scan_exhausted a : IPAddress.or_scan a [] = repeat 255 (List.length a).
Proof. induction a as [|o a IH]; [reflexivity|]. simpl. rewrite IH. reflexivity. Qed.

Lemma value_zeros n : value (repeat 0 n) = 0.
Proof.
  induction n as [|n IH]; [reflexivity|].
  cbn [repeat]. rewrite value_cons, IH. lia.
Qed.

Lemma value_ones n : value (repeat 255 n) = 256 ^ Z.of_nat n - 1.
Proof.
  induction n as [|n IH]; [reflexivity|].
  cbn [repeat]. rewrite value_cons, IH, repeat_length.
  rewrite Nat2Z.inj_succ, Z.pow_succ_r by lia. lia.
Qed.

(** The octet of a partial mask clears the [8 - p] low bits of an octet;
    its complement sets them. *)
Lemma partial_octet o p :
  0 <= o < 256 -> 0 < p < 8 ->
  Z.land o (to_uint8 (Z.shiftl 255 (8 - p))) = o / 2 ^ (8 - p) * 2 ^ (8 - p)
  /\ Z.lor (Z.land o (to_uint8 (Z.shiftl 255 (8 - p))))
           (to_uint8 (Z.lnot (to_uint8 (Z.shiftl 255 (8 - p)))))
     = o / 2 ^ (8 - p) * 2 ^ (8 - p) + 2 ^ (8 - p) - 1.
Proof.
  intros Ho Hp.
  pose proof (forallb_range
    (fun z =>
       let o := z / 8 in
       let p := z mod 8 in
       (p =? 0)
       || ((Z.land o (to_uint8 (Z.shiftl 255 (8 - p)))
            =? o / 2 ^ (8 - p) * 2 ^ (8 - p))
           && (Z.lor (Z.land o (to_uint8 (Z.shiftl 255 (8 - p))))
                 (to_uint8 (Z.lnot (to_uint8 (Z.shiftl 255 (8 - p)))))
               =? o / 2 ^ (8 - p) * 2 ^ (8 - p) + 2 ^ (8 - p) - 1)))
    2048 ltac:(vm_compute; reflexivity) (o * 8 + p)) as H.
  cbv beta zeta in H. change (Z.of_nat 2048) with 2048 in H.
  specialize (H ltac:(lia)).
  replace ((o * 8 + p) / 8) with o in H
    by (rewrite Z.div_add_l, Z.div_small by lia; lia).
  replace ((o * 8 + p) mod 8) with p in H
    by (rewrite Z.add_comm, Z.mod_add, Z.mod_small by lia; lia).
  destruct (Z.eqb_spec p 0); [lia|]. cbn [orb] in H.
  apply andb_true_iff in H. destruct H as [H1 H2].
  apply Z.eqb_eq in H1, H2. split; assumption.
Qed.

Lemma full_octet o :
  0 <= o < 256 ->
  Z.land o 255 = o /\ Z.lor (Z.land o 255) (to_uint8 (Z.lnot 255)) = o.
Proof.
  intros Ho. rewrite land_255, Z.mod_small by lia.
  split; [reflexivity|]. change (to_uint8 (Z.lnot 255)) with 0.
  apply Z.lor_0_r.
Qed.

Lemma masked_value a p :
  is_octets a = true -> 0 <= p <= 8 * Z.of_nat (List.length a) ->
  let k := 8 * Z.of_nat (List.length a) - p in
  let b := IPAddress.and_scan a (Mask.setMaskOctets p) in
  let l := IPAddress.or_scan b (inverted (Mask.setMaskOctets p)) in
  is_octets b = true /\ value b = value a / 2 ^ k * 2 ^ k
  /\ is_octets l = true /\ value l = value b + 2 ^ k - 1.
Proof.
  revert p. induction a as [|o a IH]; intros p Ha Hp; cbv zeta.
  - simpl in Hp. assert (p = 0) by lia. subst p. cbn. auto.
  - pose proof (value_bounds _ Ha) as Hva.
    apply is_octets_cons in Ha. destruct Ha as [Ho Ha].
    pose proof (value_bounds _ Ha) as Hv.
    cbn [List.length] in *. rewrite Nat2Z.inj_succ in *.
    set (L := Z.of_nat (List.length a)) in *.
    assert (HL : 0 <= L) by (unfold L; lia).
    rewrite pow_256 in Hv by lia.
    destruct (Z.eq_dec p 0) as [->|Hp0]; [|destruct (Z_lt_ge_dec p 8) as [Hp8|Hp8]].
    + rewrite setMaskOctets_zero. cbn [inverted map].
      rewrite and_scan_exhausted, or_scan_exhausted, repeat_length.
      rewrite value_zeros, value_ones. cbn zeta. rewrite Z.sub_0_r.
      cbn [List.length]. rewrite Nat2Z.inj_succ. fold L.
      rewrite pow_256 by lia.
      rewrite value_cons. fold L. rewrite pow_256 by lia.
      split; [apply is_octets_repeat; lia|].
      split.
      { rewrite Z.div_small; [lia|].
        replace (8 * Z.succ L) with (8 + 8 * L) by lia.
        rewrite Z.pow_add_r by lia. change (2 ^ 8) with 256. nia. }
      split; [apply is_octets_repeat; lia|]. lia.
    + rewrite setMaskOctets_partial by lia. cbn [inverted map].
      cbn [IPAddress.and_scan IPAddress.or_scan].
      rewrite and_scan_exhausted, or_scan_exhausted, repeat_length.
      destruct (partial_octet o p Ho ltac:(lia)) as [E1 E2].
      rewrite E2, E1.
      rewrite !value_cons, !repeat_length, value_zeros, value_ones. fold L.
      rewrite !pow_256 by lia.
      set (j := 8 - p) in *.
      replace (8 * Z.succ L - p) with (j + 8 * L) by (unfold j; lia).
      rewrite Z.pow_add_r by (unfold j; lia).
      set (J := 2 ^ j). set (M := 2 ^ (8 * L)) in *.
      assert (HJ : 0 < J) by (apply Z.pow_pos_nonneg; unfold j; lia).
      assert (HM : 0 < M) by (apply Z.pow_pos_nonneg; lia).
      assert (Hq : 0 <= o / J * J <= o).
      { pose proof (Z.mul_div_le o J HJ). split; [|lia].
        apply Z.mul_nonneg_nonneg; [apply Z.div_pos|]; lia. }
      assert (HJ8 : J <= 128).
      { unfold J. change 128 with (2 ^ 7). apply Z.pow_le_mono_r; unfold j; lia. }
      assert (Hq2 : o / J * J + J - 1 < 256).
      { assert (J * (o / J + 1) <= 256); [|lia].
        assert (256 = J * 2 ^ p) as ->.
        { unfold J. rewrite <- Z.pow_add_r by (unfold j; lia).
          replace (j + p) with 8 by (unfold j; lia). reflexivity. }
        apply Z.mul_le_mono_nonneg_l; [lia|].
        assert (o / J < 2 ^ p); [|lia].
        apply Z.div_lt_upper_bound; [lia|].
        unfold J. rewrite <- Z.pow_add_r by (unfold j; lia).
        replace (j + p) with 8 by (unfold j; lia). change (2 ^ 8) with 256. lia. }
      split; [apply is_octets_cons; split; [lia|apply is_octets_repeat; lia]|].
      split.
      { assert ((o * M + value a) / (J * M) = o / J) as ->.
        { rewrite (Z.mul_comm J M), <- Z.div_div by lia.
          rewrite Z.div_add_l by lia. rewrite (Z.div_small (value a) M) by lia.
          rewrite Z.add_0_r. reflexivity. }
        ring. }
      split; [apply is_octets_cons; split; [lia|apply is_octets_repeat; lia]|].
      ring.
    + rewrite setMaskOctets_full by lia. cbn [inverted map].
      cbn [IPAddress.and_scan IPAddress.or_scan].
      destruct (full_octet o Ho) as [E1 E2]. rewrite E2, E1.
      specialize (IH (p - 8) Ha ltac:(lia)). cbn zeta in IH.
      destruct IH as (I1 & I2 & I3 & I4). fold L in I2, I4.
      cbn zeta. rewrite !value_cons, and_scan_length, or_scan_length, and_scan_length.
      fold L. fold (inverted (Mask.setMaskOctets (p - 8))).
      rewrite I4, I2.
      replace (8 * L - (p - 8)) with (8 * Z.succ L - p) by lia.
      set (k := 8 * Z.succ L - p) in *.
      assert (Hk : 0 <= k) by (unfold k; lia).
      rewrite pow_256 by lia.
      replace (8 * L) with ((p - 8) + k) by (unfold k; lia).
      rewrite Z.pow_add_r by lia.
      set (K := 2 ^ k). assert (HK : 0 < K) by (apply Z.pow_pos_nonneg; lia).
      split; [apply is_octets_cons; tauto|].
      split.
      { rewrite Z.mul_assoc, Z.div_add_l by lia. ring. }
      split; [apply is_octets_cons; tauto|]. ring.
Qed.
(** ** Parsed addresses are well formed *)

Lemma set_nth_length {A} (l : list A) i v :
  List.length (set_nth l i v) = List.length l.
Proof.
  revert i. induction l as [|x l IH]; intros i; [reflexivity|].
  destruct i; simpl; [reflexivity|]. rewrite IH. reflexivity.
Qed.

Lemma set_nth_octets l i v :
  is_octets l = true -> 0 <= v < 256 -> is_octets (set_nth l i v) = true.
Proof.
  revert i. induction l as [|x l IH]; intros i Hl Hv; [reflexivity|].
  apply is_octets_cons in Hl. destruct Hl as [Hx Hl].
  destruct i; simpl; apply is_octets_cons; auto.
Qed.

Lemma to_uint8_octet z : 0 <= to_uint8 z < 256.
Proof. unfold to_uint8. apply Z.mod_pos_bound. lia. Qed.

Lemma setOctet_wf octets addr i addr' :
  IPv4Address.setOctet octets addr i = Ok addr' ->
  is_octets addr = true ->
  is_octets addr' = true /\ List.length addr' = List.length addr.
Proof.
  unfold IPv4Address.setOctet. intros H Ha.
  destruct (empty _ || negb _); [discriminate|].
  destruct (stoi _ 10) as [v|]; [|discriminate]. cbn [bind] in H.
  destruct ((v <? 0) || (v >? 255)); [discriminate|].
  injection H as <-. split; [|apply set_nth_length].
  apply set_nth_octets; [exact Ha|apply to_uint8_octet].
Qed.

Lemma setAddress4_loop_wf octets indices addr addr' :
  IPv4Address.setAddress_loop octets indices addr = Ok addr' ->
  is_octets addr = true ->
  is_octets addr' = true /\ List.length addr' = List.length addr.
Proof.
  revert addr. induction indices as [|i indices IH]; intros addr H Ha.
  - injection H as <-. auto.
  - cbn [IPv4Address.setAddress_loop] in H.
    destruct (IPv4Address.setOctet octets addr i) as [a1|] eqn:E; [|discriminate].
    apply setOctet_wf in E; [|exact Ha]. destruct E as [E1 E2].
    cbn [bind] in H. apply IH in H; [|exact E1]. rewrite <- E2. exact H.
Qed.

Lemma setHextet_wf hextets addr i addr' :
  IPv6Address.setHextet hextets addr i = Ok addr' ->
  is_octets addr = true ->
  is_octets addr' = true /\ List.length addr' = List.length addr.
Proof.
  unfold IPv6Address.setHextet. intros H Ha.
  destruct (empty _ || negb _); [discriminate|].
  destruct (stoi _ 16) as [v|]; [|discriminate]. cbn [bind] in H.
  destruct ((v <? 0) || (v >? 65535)); [discriminate|].
  injection H as <-. split; [|rewrite !set_nth_length; reflexivity].
  apply set_nth_octets; [|apply to_uint8_octet].
  apply set_nth_octets; [exact Ha|apply to_uint8_octet].
Qed.

Lemma setAddress6_loop_wf hextets indices addr addr' :
  IPv6Address.setAddress_loop hextets indices addr = Ok addr' ->
  is_octets addr = true ->
  is_octets addr' = true /\ List.length addr' = List.length addr.
Proof.
  revert addr. induction indices as [|i indices IH]; intros addr H Ha.
  - injection H as <-. auto.
  - cbn [IPv6Address.setAddress_loop] in H.
    destruct (IPv6Address.setHextet hextets addr i) as [a1|] eqn:E; [|discriminate].
    apply setHextet_wf in E; [|exact Ha]. destruct E as [E1 E2].
    cbn [bind] in H. apply IH in H; [|exact E1]. rewrite <- E2. exact H.
Qed.

Lemma make_address_well_formed k text a :
  make_address k text = Ok a -> well_formed k a = true.
Proof.
  destruct k; unfold make_address, IPv4Address.make, IPv6Address.make; intros H.
  - destruct (IPv4Address.setAddress _ text) as [v|] eqn:E; [|discriminate].
    injection H as <-. unfold IPv4Address.setAddress in E.
    destruct (negb _); [discriminate|].
    apply setAddress4_loop_wf in E; [|reflexivity]. destruct E as [E1 E2].
    unfold well_formed. cbn [IPAddress.kind IPAddress._address].
    rewrite E1, E2. reflexivity.
  - destruct (IPv6Address.setAddress _ text) as [v|] eqn:E; [|discriminate].
    injection H as <-. unfold IPv6Address.setAddress in E.
    destruct (IPv6Address.hextets_of text); [|discriminate]. cbn [bind] in E.
    destruct (negb _); [discriminate|].
    apply setAddress6_loop_wf in E; [|reflexivity]. destruct E as [E1 E2].
    unfold well_formed. cbn [IPAddress.kind IPAddress._address].
    rewrite E1, E2. reflexivity.
Qed.

Lemma well_formed_inv k a :
  well_formed k a = true ->
  IPAddress.kind a = k
  /\ 8 * Z.of_nat (List.length (IPAddress._address a)) = width k
  /\ is_octets (IPAddress._address a) = true.
Proof.
  unfold well_formed. intros H.
  apply andb_true_iff in H. destruct H as [H H3].
  apply andb_true_iff in H. destruct H as [H1 H2].
  apply Nat.eqb_eq in H2. rewrite H2.
  destruct k, (IPAddress.kind a); try discriminate; auto.
Qed.

(** ** First and last address *)

Lemma inc_scan_even r :
  is_octets r = true -> r <> [] -> value_le r mod 2 = 0 ->
  value_le (IPAddress.inc_scan r) = value_le r + 1.
Proof.
  intros Hr Hne Hev. destruct r as [|o r]; [contradiction|].
  apply is_octets_cons in Hr. destruct Hr as [Ho _].
  assert (o <> 255).
  { intros ->. cbn [value_le] in Hev.
    replace (255 + 256 * value_le r) with (1 + (127 + 128 * value_le r) * 2) in Hev by ring.
    rewrite Z.mod_add in Hev by lia. discriminate. }
  rewrite inc_scan_value by assumption. cbn [value_le]. ring.
Qed.

Lemma dec_scan_odd r :
  is_octets r = true -> value_le r mod 2 = 1 ->
  value_le (IPAddress.dec_scan r) = value_le r - 1.
Proof.
  intros Hr Hodd. destruct r as [|o r]; [discriminate|].
  apply is_octets_cons in Hr. destruct Hr as [Ho _].
  assert (o <> 0).
  { intros ->. cbn [value_le] in Hodd.
    replace (0 + 256 * value_le r) with (0 + (128 * value_le r) * 2) in Hodd by ring.
    rewrite Z.mod_add in Hodd by lia. discriminate. }
  rewrite dec_scan_value by assumption. cbn [value_le]. ring.
Qed.

Lemma to_Z_operator_inc ip :
  is_octets (IPAddress._address ip) = true -> IPAddress._address ip <> [] ->
  IPAddress.to_Z ip mod 2 = 0 ->
  IPAddress.to_Z (IPAddress.operator_inc ip) = IPAddress.to_Z ip + 1.
Proof.
  intros Ho Hne Hev. unfold IPAddress.to_Z, IPAddress.operator_inc in *.
  cbn [IPAddress._address IPAddress.with_address].
  rewrite value_rev, inc_scan_even; rewrite ?value_le_rev, ?is_octets_rev; auto.
  intros E. apply (f_equal (@rev Z)) in E. rewrite rev_involutive in E. auto.
Qed.

Lemma to_Z_operator_dec ip :
  is_octets (IPAddress._address ip) = true ->
  IPAddress.to_Z ip mod 2 = 1 ->
  IPAddress.to_Z (IPAddress.operator_dec ip) = IPAddress.to_Z ip - 1.
Proof.
  intros Ho Hodd. unfold IPAddress.to_Z, IPAddress.operator_dec in *.
  cbn [IPAddress._address IPAddress.with_address].
  rewrite value_rev, dec_scan_odd; rewrite ?value_le_rev, ?is_octets_rev; auto.
Qed.
(** The base, first and all-host-bits-set addresses of a network built
    from a well-formed address with a prefix length below the width. *)
Lemma built_addresses k a p :
  well_formed k a = true -> 1 <= p < width k ->
  let mask := Mask.mk p (Mask.setMaskOctets p) in
  let base := IPAddress.operator_and a mask in
  let allset := IPAddress.operator_or base (Mask.complement mask) in
  let block := 2 ^ (width k - p) in
  is_octets (IPAddress._address base) = true
  /\ IPAddress.to_Z base = IPAddress.to_Z a / block * block
  /\ IPAddress.to_Z (IPAddress.operator_inc base) = IPAddress.to_Z base + 1
  /\ IPAddress.to_Z allset = IPAddress.to_Z base + block - 1
  /\ IPAddress.to_Z (IPAddress.operator_dec allset) = IPAddress.to_Z allset - 1.
Proof.
  intros Hwf Hp. cbv zeta.
  apply well_formed_inv in Hwf. destruct Hwf as (Hk & Hlen & Ho).
  destruct (masked_value (IPAddress._address a) p Ho ltac:(lia)) as (M1 & M2 & M3 & M4).
  rewrite Hlen in M2, M4.
  set (j := width k - p) in *.
  assert (Hj : 2 ^ j = 2 ^ (j - 1) * 2).
  { replace j with (Z.succ (j - 1)) at 1 by lia.
    rewrite Z.pow_succ_r by (unfold j; lia). ring. }
  assert (Hne : IPAddress.and_scan (IPAddress._address a) (Mask.setMaskOctets p) <> []).
  { intros E. apply (f_equal (@List.length Z)) in E.
    rewrite and_scan_length in E. simpl in E. lia. }
  assert (Hev : value (IPAddress.and_scan (IPAddress._address a)
                         (Mask.setMaskOctets p)) mod 2 = 0).
  { rewrite M2, Hj, Z.mul_assoc. apply Z.mod_mul. lia. }
  split; [exact M1|]. split; [exact M2|].
  split; [apply to_Z_operator_inc; assumption|].
  split; [exact M4|].
  apply to_Z_operator_dec; [exact M3|].
  unfold IPAddress.to_Z, IPAddress.operator_or, IPAddress.operator_and.
  cbn [IPAddress._address IPAddress.with_address Mask._maskOctets Mask.complement].
  fold (inverted (Mask.setMaskOctets p)). rewrite M4, M2, Hj.
  match goal with
  | |- (?q * (?t * 2) + ?t * 2 - 1) mod 2 = 1 =>
      replace (q * (t * 2) + t * 2 - 1) with (1 + (q * t + t - 1) * 2) by ring
  end.
  rewrite Z.mod_add by lia. reflexivity.
Qed.

(** C2: for a parsed address [a] of family [k] and a prefix length [p] in
    [1, 31] the constructor succeeds; the base is [a AND mask], that is [a]
    with its [width - p] host bits cleared; the first usable address is the
    base plus one; [base OR complement(mask)] is the base with all host bits
    set; it is the last address of an IPv6 network and the broadcast address
    of an IPv4 network, whose last usable address is one below it. *)
Theorem network_construction (k : IPAddress.family) (text : string)
    (a : IPAddress.t) (p : Z) :
  make_address k text = Ok a -> 1 <= p <= 31 ->
  exists net,
    make_network k a p = Ok net
    /\ Network._mask net = Mask.mk p (Mask.setMaskOctets p)
    /\ Network._ip net = IPAddress.operator_and a (Network._mask net)
    /\ IPAddress.to_Z (Network._ip net)
       = IPAddress.to_Z a / 2 ^ (width k - p) * 2 ^ (width k - p)
    /\ Network._firstIp net = IPAddress.operator_inc (Network._ip net)
    /\ IPAddress.to_Z (Network._firstIp net) = IPAddress.to_Z (Network._ip net) + 1
    /\ let allset :=
         IPAddress.operator_or (Network._ip net)
           (Mask.complement (Network._mask net)) in
       IPAddress.to_Z allset
       = IPAddress.to_Z (Network._ip net) + 2 ^ (width k - p) - 1
       /\ match k with
          | IPAddress.IPv4 =>
              Network._broadcastIp net = Some allset
              /\ Network._lastIp net = IPAddress.operator_dec allset
              /\ IPAddress.to_Z allset = IPAddress.to_Z (Network._lastIp net) + 1
          | IPAddress.IPv6 =>
              Network._broadcastIp net = None /\ Network._lastIp net = allset
          end.
Proof.
  intros Hparse Hp.
  pose proof (make_address_well_formed _ _ _ Hparse) as Hwf.
  pose proof (well_formed_inv _ _ Hwf) as (Hk & _ & _).
  assert (Hpw : 1 <= p < width k) by (destruct k; simpl; lia).
  destruct (built_addresses k a p Hwf Hpw) as (_ & B2 & B3 & B4 & B5).
  exists (built_network k a p).
  split; [apply make_network_ok; rewrite Hk; lia|].
  destruct k; cbn [built_network built Network._mask Network._ip Network._firstIp
                     Network._lastIp Network._broadcastIp];
    repeat split; try assumption; lia.
Qed.

Lemma network_construction_witness :
  exists net,
    make_network IPAddress.IPv4 (addr4 1 2 3 4) 24 = Ok net
    /\ IPAddress.to_Z (Network._firstIp net) = IPAddress.to_Z (Network._ip net) + 1.
Proof.
  destruct (network_construction IPAddress.IPv4 "1.2.3.4" (addr4 1 2 3 4) 24)
    as (net & H1 & _ & _ & _ & _ & H2 & _).
  - vm_compute. reflexivity.
  - lia.
  - exists net. split; assumption.
Defined.
(** ** The addresses of the subnets *)

Lemma to_int_mod z : to_int z mod 2 ^ 32 = z mod 2 ^ 32.
Proof.
  unfold to_int. cbv zeta. destruct (z mod 2 ^ 32 <? 2 ^ 31).
  - apply Z.mod_mod. lia.
  - replace (z mod 2 ^ 32 - 2 ^ 32) with (z mod 2 ^ 32 + (-1) * 2 ^ 32) by ring.
    rewrite Z.mod_add by lia. apply Z.mod_mod. lia.
Qed.

Lemma to_int_small z : 0 <= z < 2 ^ 31 -> to_int z = z.
Proof.
  intros Hz. unfold to_int. cbv zeta. rewrite Z.mod_small by lia.
  destruct (Z.ltb_spec z (2 ^ 31)); lia.
Qed.

(** [increment * i] as it reaches [operator +=]. *)
Lemma ipv4_offset m i :
  0 <= m -> 0 <= i -> 2 ^ m * i < 2 ^ 31 ->
  to_int (to_uint32 (to_int (Z.shiftl 1 m) * i)) = 2 ^ m * i.
Proof.
  intros Hm Hi Hlt. rewrite Z.shiftl_1_l. unfold to_uint32.
  rewrite <- Z.mul_mod_idemp_l, to_int_mod, Z.mul_mod_idemp_l by lia.
  assert (0 <= 2 ^ m * i) by (apply Z.mul_nonneg_nonneg; [apply Z.pow_nonneg|]; lia).
  rewrite Z.mod_small by lia. apply to_int_small. lia.
Qed.

Lemma to_Z_operator_add ip c :
  is_octets (IPAddress._address ip) = true -> 0 <= c ->
  IPAddress.to_Z ip + c < 256 ^ IPAddress.getSize ip ->
  IPAddress.to_Z (IPAddress.operator_add ip c) = IPAddress.to_Z ip + c
  /\ is_octets (IPAddress._address (IPAddress.operator_add ip c)) = true
  /\ List.length (IPAddress._address (IPAddress.operator_add ip c))
     = List.length (IPAddress._address ip).
Proof.
  intros Ho Hc Hlt. unfold IPAddress.to_Z, IPAddress.operator_add, IPAddress.getSize in *.
  cbn [IPAddress._address IPAddress.with_address].
  pose proof (value_bounds _ Ho) as Hb.
  rewrite value_rev, add_scan_value, length_rev, value_le_rev
    by (rewrite ?is_octets_rev; assumption).
  rewrite Z.mod_small by lia. split; [reflexivity|].
  rewrite is_octets_rev, length_rev, add_scan_length, length_rev.
  split; [|reflexivity]. apply add_scan_octets. rewrite is_octets_rev. exact Ho.
Qed.

Lemma to_Z_operator_add6 ip inc :
  is_octets (IPAddress._address ip) = true -> is_octets inc = true ->
  (List.length inc <= List.length (IPAddress._address ip))%nat ->
  IPAddress.to_Z ip + value inc < 256 ^ IPAddress.getSize ip ->
  IPAddress.to_Z (IPv6Address.operator_add ip inc) = IPAddress.to_Z ip + value inc
  /\ is_octets (IPAddress._address (IPv6Address.operator_add ip inc)) = true
  /\ List.length (IPAddress._address (IPv6Address.operator_add ip inc))
     = List.length (IPAddress._address ip).
Proof.
  intros Ho Hi Hlen Hlt.
  unfold IPAddress.to_Z, IPv6Address.operator_add, IPAddress.getSize in *.
  cbn [IPAddress._address IPAddress.with_address].
  destruct (add_scan6_sum (rev inc) (rev (IPAddress._address ip)) 0)
    as (S1 & S2 & S3).
  - now rewrite is_octets_rev.
  - now rewrite is_octets_rev.
  - lia.
  - now rewrite !length_rev.
  - rewrite !value_le_rev, length_rev. lia.
  - rewrite value_rev, S2, !value_le_rev, is_octets_rev, length_rev, S1, length_rev.
    split; [lia|]. split; [exact S3|reflexivity].
Qed.

Lemma to_Z_add_times j ip inc :
  is_octets (IPAddress._address ip) = true -> is_octets inc = true ->
  (List.length inc <= List.length (IPAddress._address ip))%nat ->
  IPAddress.to_Z ip + Z.of_nat j * value inc < 256 ^ IPAddress.getSize ip ->
  IPAddress.to_Z (IPv6Network.add_times j ip inc)
  = IPAddress.to_Z ip + Z.of_nat j * value inc
  /\ is_octets (IPAddress._address (IPv6Network.add_times j ip inc)) = true
  /\ List.length (IPAddress._address (IPv6Network.add_times j ip inc))
     = List.length (IPAddress._address ip).
Proof.
  revert ip. induction j as [|j IH]; intros ip Ho Hi Hlen Hlt.
  - cbn [IPv6Network.add_times]. split; [simpl; lia|auto].
  - cbn [IPv6Network.add_times].
    pose proof (value_bounds _ Hi) as Hbi.
    rewrite Nat2Z.inj_succ in Hlt.
    assert (Hv : 0 <= Z.of_nat j * value inc) by (apply Z.mul_nonneg_nonneg; lia).
    destruct (to_Z_operator_add6 ip inc Ho Hi Hlen ltac:(lia)) as (A1 & A2 & A3).
    destruct (IH (IPv6Address.operator_add ip inc) A2 Hi ltac:(lia)) as (I1 & I2 & I3).
    { unfold IPAddress.getSize in *. rewrite A1, A3. lia. }
    rewrite I1, A1, I3, A3, Nat2Z.inj_succ. split; [lia|]. auto.
Qed.

Lemma increment_vector_value bits :
  0 <= bits < 128 ->
  value (IPv6Network.increment_vector bits) = 2 ^ bits
  /\ is_octets (IPv6Network.increment_vector bits) = true
  /\ List.length (IPv6Network.increment_vector bits) = 16%nat.
Proof.
  intros Hb.
  pose proof (forallb_range
    (fun b => (value (IPv6Network.increment_vector b) =? 2 ^ b)
              && is_octets (IPv6Network.increment_vector b)
              && Nat.eqb (List.length (IPv6Network.increment_vector b)) 16)
    128 ltac:(vm_compute; reflexivity) bits) as H.
  cbv beta in H. change (Z.of_nat 128) with 128 in H. specialize (H Hb).
  apply andb_true_iff in H. destruct H as [H H3].
  apply andb_true_iff in H. destruct H as [H1 H2].
  apply Z.eqb_eq in H1. apply Nat.eqb_eq in H3. auto.
Qed.

Lemma log2_up_bound n : 1 <= n -> n <= 2 ^ Z.log2_up n.
Proof. intros Hn. apply Z.log2_log2_up_spec. lia. Qed.
(** The block arithmetic of a segmentation: [B] is the size of the parent
    block, [blk] the size of a subnet block. *)
Lemma block_arithmetic W p n v :
  1 <= p -> 1 <= n -> p + Z.log2_up n <= W -> 0 <= v < 2 ^ W ->
  let B := 2 ^ (W - p) in
  let blk := 2 ^ (W - (p + Z.log2_up n)) in
  0 < blk /\ B = 2 ^ Z.log2_up n * blk /\ n * blk <= B
  /\ 0 <= v / B * B /\ v / B * B + B <= 2 ^ W /\ 2 * B <= 2 ^ W.
Proof.
  intros Hp Hn Hnp Hv. cbv zeta.
  pose proof (Z.log2_up_nonneg n) as Hlg.
  pose proof (log2_up_bound n Hn) as HG.
  set (lg := Z.log2_up n) in *.
  set (blk := 2 ^ (W - (p + lg))).
  assert (Hblk : 0 < blk) by (apply Z.pow_pos_nonneg; lia).
  assert (HB : 2 ^ (W - p) = 2 ^ lg * blk).
  { unfold blk. rewrite <- Z.pow_add_r by lia. f_equal. lia. }
  assert (HW : 2 ^ W = 2 ^ p * 2 ^ (W - p)).
  { rewrite <- Z.pow_add_r by lia. f_equal. lia. }
  set (B := 2 ^ (W - p)) in *.
  assert (HBpos : 0 < B) by (apply Z.pow_pos_nonneg; lia).
  assert (Hq : 0 <= v / B < 2 ^ p).
  { split; [apply Z.div_pos; lia|]. apply Z.div_lt_upper_bound; lia. }
  assert (H2p : 2 <= 2 ^ p).
  { change 2 with (2 ^ 1) at 1. apply Z.pow_le_mono_r; lia. }
  split; [exact Hblk|]. split; [exact HB|].
  split; [rewrite HB; apply Z.mul_le_mono_nonneg_r; lia|].
  split; [apply Z.mul_nonneg_nonneg; lia|].
  split; [rewrite HW; nia|rewrite HW; nia].
Qed.

Lemma well_formed_intro k x :
  IPAddress.kind x = k ->
  8 * Z.of_nat (List.length (IPAddress._address x)) = width k ->
  is_octets (IPAddress._address x) = true ->
  well_formed k x = true.
Proof.
  intros Hk Hl Ho. unfold well_formed. rewrite Hk, Ho.
  assert (List.length (IPAddress._address x) = num_octets k) as ->
    by (destruct k; unfold num_octets, IPv4Address.IPV4_NUM_OCTETS,
          IPv6Address.IPV6_NUM_OCTETS, width in *; lia).
  rewrite Nat.eqb_refl. destruct k; reflexivity.
Qed.

Lemma child_address_value k a p n i :
  well_formed k a = true -> 1 <= p -> 1 <= n ->
  p + Z.log2_up n <= width k -> 0 <= i < n ->
  let base := IPAddress.operator_and a (Mask.mk p (Mask.setMaskOctets p)) in
  let np := p + Z.log2_up n in
  let x := child_address k base np i in
  IPAddress.to_Z x = IPAddress.to_Z base + i * 2 ^ (width k - np)
  /\ well_formed k x = true.
Proof.
  intros Hwf Hp Hn Hnp Hi. cbv zeta.
  pose proof (Z.log2_up_nonneg n) as Hlg.
  apply well_formed_inv in Hwf. destruct Hwf as (Hk & Hlen & Ho).
  destruct (masked_value (IPAddress._address a) p Ho ltac:(lia)) as (M1 & M2 & _).
  rewrite Hlen in M2.
  pose proof (value_bounds _ Ho) as Hv. rewrite pow_256, Hlen in Hv by lia.
  destruct (block_arithmetic (width k) p n _ Hp Hn Hnp Hv)
    as (Hblk & HB & HnB & Hq0 & HqB & H2B).
  set (base := IPAddress.operator_and a (Mask.mk p (Mask.setMaskOctets p))).
  set (np := p + Z.log2_up n) in *.
  set (blk := 2 ^ (width k - np)) in *.
  set (B := 2 ^ (width k - p)) in *.
  assert (Hbase : IPAddress.to_Z base = value (IPAddress._address a) / B * B)
    by exact M2.
  assert (Hbo : is_octets (IPAddress._address base) = true) by exact M1.
  assert (Hbl : List.length (IPAddress._address base)
                = List.length (IPAddress._address a))
    by apply and_scan_length.
  assert (Hsz : 256 ^ IPAddress.getSize base = 2 ^ width k).
  { unfold IPAddress.getSize. rewrite Hbl, pow_256, Hlen by lia. reflexivity. }
  assert (Hib : i * blk + blk <= B) by nia.
  assert (Hi0 : 0 <= i * blk) by nia.
  assert (Hkb : IPAddress.kind base = k) by exact Hk.
  destruct k.
  - cbn [child_address]. cbn [width] in *.
    rewrite ipv4_offset; [|lia|lia|].
    2:{ fold np. fold blk. assert (2 * B <= 2 ^ 32) by exact H2B.
        change (2 ^ 32) with (2 * 2 ^ 31) in H. lia. }
    fold np. fold blk.
    destruct (to_Z_operator_add base (blk * i) Hbo ltac:(lia)) as (A1 & A2 & A3).
    { rewrite Hsz, Hbase. lia. }
    rewrite A1. split; [ring|].
    apply well_formed_intro; [exact Hkb| |exact A2].
    rewrite A3, Hbl. exact Hlen.
  - cbn [child_address]. cbn [width] in *. fold np.
    destruct (increment_vector_value (128 - np) ltac:(unfold np; lia)) as (V1 & V2 & V3).
    fold blk in V1.
    destruct (to_Z_add_times (Z.to_nat i) base
                (IPv6Network.increment_vector (128 - np)) Hbo V2) as (A1 & A2 & A3).
    { rewrite V3, Hbl. lia. }
    { rewrite Hsz, V1, Hbase, Z2Nat.id by lia. lia. }
    rewrite A1, V1, Z2Nat.id by lia. split; [reflexivity|].
    apply well_formed_intro; [rewrite add_times_kind; exact Hkb| |exact A2].
    rewrite A3, Hbl. exact Hlen.
Qed.
Lemma segment_prefix_check k a p subs n :
  1 <= n ->
  n <= IPAddress.calculateCapacity (Network._ip (built_network k a p)) p ->
  p + Z.log2_up n > width k ->
  fst (segment k n (Network.with_subnets (built_network k a p) subs)) <> Ok tt.
Proof.
  intros Hn Hc Hw.
  destruct k; unfold segment, IPv4Network.segment, IPv6Network.segment;
    (destruct (Z.ltb_spec n 1); [lia|]);
    change (Network.getPrefixLength (Network.with_subnets ?x subs))
      with (Network.getPrefixLength x);
    change (Network._ip (Network.with_subnets ?x subs)) with (Network._ip x);
    rewrite built_network_prefix;
    (match goal with |- context [?x >? IPAddress.calculateCapacity ?y ?z] =>
       destruct (Z.gtb_spec x (IPAddress.calculateCapacity y z)) end; [lia|]);
    cbv zeta;
    match goal with |- context [?x >? ?y] => destruct (Z.gtb_spec x y) end;
    cbn [width] in Hw; try lia; discriminate.
Qed.

Lemma subnets_with_subnets x l :
  Network._subnets (Network.with_subnets x l) = l.
Proof. reflexivity. Qed.

Lemma nth_error_map_indices {A} (f : Z -> A) (count i : nat) (c : A) :
  nth_error (map f (indices 0 count)) i = Some c ->
  (i < count)%nat /\ c = f (Z.of_nat i).
Proof.
  intros H. rewrite nth_error_map in H. unfold indices in H.
  rewrite nth_error_map in H.
  destruct (nth_error (seq 0 count) i) as [j|] eqn:E; [|discriminate].
  pose proof E as E'. apply nth_error_In, in_seq in E'.
  assert (Hi : (i < count)%nat).
  { rewrite <- (length_seq count 0). apply nth_error_Some. congruence. }
  rewrite (nth_error_nth' _ 0%nat) in E by (rewrite length_seq; exact Hi).
  rewrite seq_nth in E by exact Hi. injection E as <-.
  cbn in H. injection H as <-. split; [exact Hi|]. f_equal.
Qed.

(** C1: on a network built from a well-formed address [a] of family [k]
    with prefix length [p], for a count [n] in [1, calculateCapacity p] on
    which [segment] succeeds, the network has exactly [n] subnets, each of
    prefix length [p + ceil(log2 n)]; the base of the subnet of index [i] is
    the base of the parent plus [i] blocks of [2 ^ (width - newPrefix)]
    addresses; hence the bases increase strictly and the blocks do not
    overlap. *)
Theorem segment_children (k : IPAddress.family) (a : IPAddress.t) (p n : Z)
    (net0 : Network.t) (subs : list Network.t) :
  well_formed k a = true ->
  make_network k a p = Ok net0 ->
  1 <= n <= IPAddress.calculateCapacity (Network._ip net0) p ->
  fst (segment k n (Network.with_subnets net0 subs)) = Ok tt ->
  let np := p + Z.log2_up n in
  let block := 2 ^ (width k - np) in
  let net := snd (segment k n (Network.with_subnets net0 subs)) in
  Network.getSubnetCount net = n
  /\ (forall i c,
        nth_error (Network._subnets net) i = Some c ->
        Network.getPrefixLength c = np
        /\ IPAddress.to_Z (Network._ip c)
           = IPAddress.to_Z (Network._ip net0) + Z.of_nat i * block)
  /\ (forall i j c d,
        (i < j)%nat ->
        nth_error (Network._subnets net) i = Some c ->
        nth_error (Network._subnets net) j = Some d ->
        IPAddress.to_Z (Network._ip c) < IPAddress.to_Z (Network._ip d)
        /\ IPAddress.to_Z (Network._ip c) + block
           <= IPAddress.to_Z (Network._ip d)).
Proof.
  intros Hwf Hmake Hn Hok. cbv zeta.
  pose proof (Z.log2_up_nonneg n) as Hlg.
  pose proof (well_formed_inv _ _ Hwf) as (Hk & _ & _).
  apply make_network_inv in Hmake. destruct Hmake as [Hp ->]. rewrite Hk in Hp.
  destruct (Z_le_gt_dec (p + Z.log2_up n) (width k)) as [Hw|Hw];
    [|exfalso; revert Hok; apply segment_prefix_check; lia].
  rewrite segment_run in * by (assumption || lia).
  cbn [snd]. unfold Network.getSubnetCount. rewrite !subnets_with_subnets.
  set (np := p + Z.log2_up n) in *.
  set (block := 2 ^ (width k - np)).
  assert (Hblock : 0 < block) by (apply Z.pow_pos_nonneg; unfold np; lia).
  assert (Hchild : forall i c,
    nth_error
      (map (fun i => built_network k
                       (child_address k (Network._ip (built_network k a p)) np i) np)
           (indices 0 (Z.to_nat n))) i = Some c ->
    Network.getPrefixLength c = np
    /\ IPAddress.to_Z (Network._ip c)
       = IPAddress.to_Z (Network._ip (built_network k a p)) + Z.of_nat i * block).
  { intros i c Hc. apply nth_error_map_indices in Hc. destruct Hc as [Hi ->].
    split; [apply built_network_prefix|].
    rewrite !built_network_ip.
    destruct (child_address_value k a p n (Z.of_nat i) Hwf ltac:(lia) ltac:(lia)
                Hw ltac:(lia)) as [Hv Hx].
    fold np in Hv, Hx. fold block in Hv.
    set (x := child_address k
                (IPAddress.operator_and a (Mask.mk p (Mask.setMaskOctets p))) np
                (Z.of_nat i)) in *.
    apply well_formed_inv in Hx. destruct Hx as (_ & Hxl & Hxo).
    destruct (masked_value (IPAddress._address x) np Hxo
                ltac:(unfold np in *; lia)) as (_ & M2 & _).
    rewrite Hxl in M2. fold block in M2.
    unfold IPAddress.to_Z at 1. unfold IPAddress.operator_and at 1.
    cbn [IPAddress._address IPAddress.with_address Mask._maskOctets].
    rewrite M2. fold (IPAddress.to_Z x). rewrite Hv.
    (* the parent base is a multiple of the block *)
    apply well_formed_inv in Hwf. destruct Hwf as (_ & Hal & Hao).
    destruct (masked_value (IPAddress._address a) p Hao ltac:(lia)) as (_ & N2 & _).
    rewrite Hal in N2.
    pose proof (value_bounds _ Hao) as Hv0. rewrite pow_256, Hal in Hv0 by lia.
    destruct (block_arithmetic (width k) p n _ ltac:(lia) ltac:(lia) Hw Hv0)
      as (_ & HB & _).
    fold np in HB. fold block in HB.
    unfold IPAddress.to_Z at 1 2. unfold IPAddress.operator_and.
    cbn [IPAddress._address IPAddress.with_address Mask._maskOctets].
    rewrite N2, HB.
    set (q := value (IPAddress._address a) / (2 ^ Z.log2_up n * block)).
    replace (q * (2 ^ Z.log2_up n * block) + Z.of_nat i * block)
      with ((q * 2 ^ Z.log2_up n + Z.of_nat i) * block) by ring.
    rewrite Z.div_mul by lia. reflexivity. }
  split; [rewrite length_map; unfold indices; rewrite length_map, length_seq; lia|].
  split; [exact Hchild|].
  intros i j c d Hij Hc Hd.
  apply Hchild in Hc, Hd. destruct Hc as [_ ->], Hd as [_ ->]. nia.
Qed.

Lemma segment_children_witness :
  Network.getSubnetCount
    (snd (segment IPAddress.IPv6 4
            (Network.with_subnets
               (built_network IPAddress.IPv6
                  (addr6 [32; 1; 13; 184; 133; 163; 0; 0; 0; 0; 138; 46; 3; 112; 115; 52])
                  64) [])))
  = 4.
Proof.
  destruct (segment_children IPAddress.IPv6
              (addr6 [32; 1; 13; 184; 133; 163; 0; 0; 0; 0; 138; 46; 3; 112; 115; 52])
              64 4
              (built_network IPAddress.IPv6
                 (addr6 [32; 1; 13; 184; 133; 163; 0; 0; 0; 0; 138; 46; 3; 112; 115; 52])
                 64) []) as (H & _).
  - vm_compute. reflexivity.
  - vm_compute. reflexivity.
  - change (1 <= 4 <= 65536). lia.
  - vm_compute. reflexivity.
  - exact H.
Defined.
(** ** Rendering and parsing of IPv4 addresses *)

Lemma stoi_is_spec s v : stoi_is s v = true -> stoi s 10 = Ok v.
Proof.
  unfold stoi_is. destruct (stoi s 10); [|discriminate].
  intros H. apply Z.eqb_eq in H. congruence.
Qed.

(** The decimal text of an octet is made of digits, has no leading zero and
    reads back as the octet. *)
Lemma print_octet v :
  0 <= v < 256 ->
  empty (print_int 10 v) = false
  /\ all_of isdigit (print_int 10 v) = true
  /\ canonical (print_int 10 v) = true
  /\ stoi (print_int 10 v) 10 = Ok v.
Proof.
  intros Hv.
  pose proof (forallb_range
    (fun v => negb (empty (print_int 10 v))
              && all_of isdigit (print_int 10 v)
              && canonical (print_int 10 v)
              && stoi_is (print_int 10 v) v)
    256 ltac:(vm_compute; reflexivity) v) as H.
  cbv beta in H. change (Z.of_nat 256) with 256 in H. specialize (H Hv).
  apply andb_true_iff in H. destruct H as [H H4].
  apply andb_true_iff in H. destruct H as [H H3].
  apply andb_true_iff in H. destruct H as [H1 H2].
  apply negb_true_iff in H1. apply stoi_is_spec in H4. auto.
Qed.

Lemma append_snoc (tok : string) c s :
  ((tok ++ String c EmptyString) ++ s)%string = (tok ++ String c s)%string.
Proof. induction tok as [|x tok IH]; [reflexivity|]. simpl. rewrite IH. reflexivity. Qed.

Lemma append_empty_r (s : string) : (s ++ "")%string = s.
Proof. induction s as [|x s IH]; [reflexivity|]. simpl. rewrite IH. reflexivity. Qed.

Lemma isdigit_not_dot c : isdigit c = true -> Ascii.eqb "." c = false.
Proof.
  intros H. destruct (Ascii.eqb_spec "."%char c) as [<-|]; [|reflexivity].
  discriminate.
Qed.

(** [split] steps over a run of digits and cuts at a period. *)
Lemma split_scan_digits s rest tok :
  all_of isdigit s = true ->
  split_scan "." (s ++ rest) 0 tok = split_scan "." rest 0 (tok ++ s).
Proof.
  revert tok. induction s as [|c s IH]; intros tok H.
  - simpl. rewrite append_empty_r. reflexivity.
  - simpl in H. apply andb_true_iff in H. destruct H as [Hc Hs].
    cbn [append split_scan starts_with]. rewrite (isdigit_not_dot c Hc).
    cbn [andb]. rewrite IH by exact Hs. rewrite append_snoc. reflexivity.
Qed.

Lemma split_scan_period rest tok :
  split_scan "." (String "." rest) 0 tok = tok :: split_scan "." rest 0 EmptyString.
Proof. reflexivity. Qed.

Lemma split_dotted s0 s1 s2 s3 :
  all_of isdigit s0 = true -> all_of isdigit s1 = true ->
  all_of isdigit s2 = true -> all_of isdigit s3 = true ->
  split (s0 ++ "." ++ s1 ++ "." ++ s2 ++ "." ++ s3) "." = [s0; s1; s2; s3].
Proof.
  intros H0 H1 H2 H3. unfold split.
  rewrite split_scan_digits by exact H0. cbn [append]. rewrite split_scan_period.
  rewrite split_scan_digits by exact H1. cbn [append]. rewrite split_scan_period.
  rewrite split_scan_digits by exact H2. cbn [append]. rewrite split_scan_period.
  rewrite <- (append_empty_r s3) at 1.
  rewrite split_scan_digits by exact H3. reflexivity.
Qed.

Lemma setOctet_inv octets addr i addr' :
  IPv4Address.setOctet octets addr i = Ok addr' ->
  exists v,
    stoi (nth i octets EmptyString) 10 = Ok v /\ 0 <= v < 256
    /\ addr' = set_nth addr i v.
Proof.
  unfold IPv4Address.setOctet. intros H.
  destruct (empty _ || negb _); [discriminate|].
  destruct (stoi _ 10) as [v|]; [|discriminate]. cbn [bind] in H.
  destruct (Z.ltb_spec v 0); [discriminate|].
  destruct (Z.gtb_spec v 255); [discriminate|]. cbn [orb] in H.
  injection H as <-. exists v. split; [reflexivity|]. split; [lia|].
  unfold to_uint8. rewrite Z.mod_small by lia. reflexivity.
Qed.

Lemma setOctet_printed octets addr i v :
  0 <= v < 256 -> nth i octets EmptyString = print_int 10 v ->
  IPv4Address.setOctet octets addr i = Ok (set_nth addr i v).
Proof.
  intros Hv E. unfold IPv4Address.setOctet. rewrite E.
  destruct (print_octet v Hv) as (P1 & P2 & _ & P4).
  rewrite P1, P2, P4. cbn [orb negb bind].
  destruct (Z.ltb_spec v 0); [lia|]. destruct (Z.gtb_spec v 255); [lia|].
  cbn [orb]. unfold to_uint8. rewrite Z.mod_small by lia. reflexivity.
Qed.

(** C8: when a text parses as an IPv4 address, it has four components
    whose values are the octets of the address; rendering the address
    yields these four values in decimal without leading zeros, joined by
    periods; and that rendering parses back to the same address, so that
    rendering is idempotent through parsing. *)
Theorem ipv4_render_parse_roundtrip (text : string) (a : IPAddress.t) :
  IPv4Address.make text = Ok a ->
  (exists c0 c1 c2 c3 v0 v1 v2 v3,
      split text "." = [c0; c1; c2; c3]
      /\ stoi c0 10 = Ok v0 /\ stoi c1 10 = Ok v1
      /\ stoi c2 10 = Ok v2 /\ stoi c3 10 = Ok v3
      /\ a = addr4 v0 v1 v2 v3
      /\ IPv4Address.print a
         = (print_int 10 v0 ++ "." ++ print_int 10 v1 ++ "."
            ++ print_int 10 v2 ++ "." ++ print_int 10 v3)%string
      /\ forallb canonical
           [print_int 10 v0; print_int 10 v1; print_int 10 v2; print_int 10 v3]
         = true)
  /\ IPv4Address.make (IPv4Address.print a) = Ok a
  /\ (r <- IPv4Address.make (IPv4Address.print a) ;; Ok (IPv4Address.print r))
     = Ok (IPv4Address.print a).
Proof.
  intros H.
  assert (Hshape : exists c0 c1 c2 c3 v0 v1 v2 v3,
    split text "." = [c0; c1; c2; c3]
    /\ stoi c0 10 = Ok v0 /\ stoi c1 10 = Ok v1
    /\ stoi c2 10 = Ok v2 /\ stoi c3 10 = Ok v3
    /\ (0 <= v0 < 256 /\ 0 <= v1 < 256 /\ 0 <= v2 < 256 /\ 0 <= v3 < 256)
    /\ a = addr4 v0 v1 v2 v3).
  { unfold IPv4Address.make, IPv4Address.setAddress in H.
    destruct (split text ".") as [|c0 [|c1 [|c2 [|c3 [|c4 l]]]]] eqn:E;
      try discriminate.
    cbn [List.length Nat.eqb negb IPv4Address.IPV4_NUM_OCTETS seq
         IPv4Address.setAddress_loop repeat] in H.
    destruct (IPv4Address.setOctet _ _ 0) as [a0|] eqn:E0; [|discriminate].
    cbn [bind] in H.
    destruct (IPv4Address.setOctet _ _ 1) as [a1|] eqn:E1; [|discriminate].
    cbn [bind] in H.
    destruct (IPv4Address.setOctet _ _ 2) as [a2|] eqn:E2; [|discriminate].
    cbn [bind] in H.
    destruct (IPv4Address.setOctet _ _ 3) as [a3|] eqn:E3; [|discriminate].
    cbn [bind] in H. injection H as <-.
    apply setOctet_inv in E0, E1, E2, E3.
    destruct E0 as (v0 & S0 & R0 & ->), E1 as (v1 & S1 & R1 & ->),
      E2 as (v2 & S2 & R2 & ->), E3 as (v3 & S3 & R3 & ->).
    exists c0, c1, c2, c3, v0, v1, v2, v3. cbn [nth] in *. repeat split; auto; lia. }
  destruct Hshape as (c0 & c1 & c2 & c3 & v0 & v1 & v2 & v3
                      & E & S0 & S1 & S2 & S3 & (R0 & R1 & R2 & R3) & ->).
  destruct (print_octet v0 R0) as (_ & D0 & C0 & _).
  destruct (print_octet v1 R1) as (_ & D1 & C1 & _).
  destruct (print_octet v2 R2) as (_ & D2 & C2 & _).
  destruct (print_octet v3 R3) as (_ & D3 & C3 & _).
  assert (Hprint : IPv4Address.print (addr4 v0 v1 v2 v3)
    = (print_int 10 v0 ++ "." ++ print_int 10 v1 ++ "."
       ++ print_int 10 v2 ++ "." ++ print_int 10 v3)%string) by reflexivity.
  assert (Hback : IPv4Address.make (IPv4Address.print (addr4 v0 v1 v2 v3))
                  = Ok (addr4 v0 v1 v2 v3)).
  { rewrite Hprint. unfold IPv4Address.make, IPv4Address.setAddress.
    rewrite split_dotted by assumption.
    cbn [List.length Nat.eqb negb IPv4Address.IPV4_NUM_OCTETS seq
         IPv4Address.setAddress_loop repeat].
    rewrite (setOctet_printed
               [print_int 10 v0; print_int 10 v1; print_int 10 v2; print_int 10 v3]
               _ 0 v0 R0 eq_refl). cbn [bind].
    rewrite (setOctet_printed
               [print_int 10 v0; print_int 10 v1; print_int 10 v2; print_int 10 v3]
               _ 1 v1 R1 eq_refl). cbn [bind].
    rewrite (setOctet_printed
               [print_int 10 v0; print_int 10 v1; print_int 10 v2; print_int 10 v3]
               _ 2 v2 R2 eq_refl). cbn [bind].
    rewrite (setOctet_printed
               [print_int 10 v0; print_int 10 v1; print_int 10 v2; print_int 10 v3]
               _ 3 v3 R3 eq_refl). cbn [bind].
    reflexivity. }
  split.
  - exists c0, c1, c2, c3, v0, v1, v2, v3.
    repeat split; try assumption.
    cbn [forallb]. rewrite C0, C1, C2, C3. reflexivity.
  - split; [exact Hback|]. rewrite Hback. reflexivity.
Qed.

Lemma ipv4_render_parse_roundtrip_witness :
  IPv4Address.make (IPv4Address.print (addr4 1 2 3 255)) = Ok (addr4 1 2 3 255).
Proof.
  destruct (ipv4_render_parse_roundtrip "001.02.3.0255" (addr4 1 2 3 255))
    as (_ & H & _).
  - vm_compute. reflexivity.
  - exact H.
Defined.
(** * Further properties *)

(** ** Masks: construction, shape, access, complement *)

Lemma partial_mask_octet p :
  0 < p < 8 -> to_uint8 (Z.shiftl 255 (8 - p)) = 256 - 2 ^ (8 - p).
Proof.
  intros Hp.
  pose proof (forallb_range
    (fun q => (q =? 0) || (to_uint8 (Z.shiftl 255 (8 - q)) =? 256 - 2 ^ (8 - q)))
    8 ltac:(vm_compute; reflexivity) p) as H.
  cbv beta in H. change (Z.of_nat 8) with 8 in H. specialize (H ltac:(lia)).
  destruct (Z.eqb_spec p 0); [lia|]. apply Z.eqb_eq in H. exact H.
Qed.

Lemma setMaskOctets_shape (m : nat) (p : Z) :
  0 <= p <= 8 * Z.of_nat m ->
  let size := Z.of_nat (List.length (Mask.setMaskOctets p)) in
  size = (p + 7) / 8
  /\ is_octets (Mask.setMaskOctets p) = true
  /\ value (Mask.setMaskOctets p) = 2 ^ (8 * size) - 2 ^ (8 * size - p).
Proof.
  revert p. induction m as [|m IH]; intros p Hp; cbv zeta.
  - assert (p = 0) by lia. subst p. rewrite setMaskOctets_zero. cbn. auto.
  - destruct (Z.eq_dec p 0) as [->|Hp0]; [|destruct (Z_lt_ge_dec p 8) as [Hp8|Hp8]].
    + rewrite setMaskOctets_zero. cbn. auto.
    + rewrite setMaskOctets_partial by lia. cbn [List.length].
      change (Z.of_nat 1) with 1. rewrite partial_mask_octet by lia.
      assert (H1 : (p + 7) / 8 = 1).
      { replace (p + 7) with ((p - 1) + 1 * 8) by ring.
        rewrite Z.div_add, Z.div_small by lia. reflexivity. }
      assert (H2 : 0 < 2 ^ (8 - p) <= 128).
      { split; [apply Z.pow_pos_nonneg; lia|].
        change 128 with (2 ^ 7). apply Z.pow_le_mono_r; lia. }
      split; [symmetry; exact H1|]. split.
      * apply is_octets_cons. split; [lia|reflexivity].
      * unfold value. cbn [fold_left]. replace (8 * 1 - p) with (8 - p) by ring.
        change (2 ^ (8 * 1)) with 256. ring.
    + rewrite setMaskOctets_full by lia. cbn [List.length].
      rewrite Nat2Z.inj_succ.
      destruct (IH (p - 8) ltac:(lia)) as (I1 & I2 & I3).
      set (L := Z.of_nat (List.length (Mask.setMaskOctets (p - 8)))) in *.
      assert (HL : 0 <= L) by (unfold L; lia).
      split.
      { rewrite I1. replace (p + 7) with ((p - 8 + 7) + 1 * 8) by ring.
        rewrite Z.div_add by lia. lia. }
      split; [apply is_octets_cons; split; [lia|exact I2]|].
      rewrite value_cons. fold L. rewrite I3, pow_256 by lia.
      replace (8 * Z.succ L) with (8 + 8 * L) by lia.
      rewrite Z.pow_add_r by lia. change (2 ^ 8) with 256.
      replace (8 + 8 * L - p) with (8 * L - (p - 8)) by ring. ring.
Qed.

(** [Mask(prefixLength)] throws [invalid_argument] exactly when the prefix
    length is outside 1..128; otherwise the mask keeps the prefix length
    and stores [ceil(prefixLength / 8)] octets. *)
Theorem mask_construction (p : Z) :
  (p < 1 \/ 128 < p -> exists what, Mask.make p = Throw (invalid_argument what))
  /\ (1 <= p <= 128 ->
      exists m, Mask.make p = Ok m
                /\ Mask.getPrefixLength m = p
                /\ Mask.getSize m = (p + 7) / 8).
Proof.
  split.
  - intros Hp. unfold Mask.make, Mask.isValidPrefixLength,
      Mask.MASK_MIN_PREFIX, Mask.MASK_MAX_PREFIX.
    destruct (Z.geb_spec p 1); destruct (Z.leb_spec p 128); try lia;
      cbn [andb negb]; eexists; reflexivity.
  - intros Hp. rewrite Mask_make_ok by exact Hp. eexists. split; [reflexivity|].
    split; [reflexivity|]. unfold Mask.getSize. cbn [Mask._maskOctets].
    apply (setMaskOctets_shape (Z.to_nat p) p). lia.
Qed.

Lemma mask_construction_witness :
  exists m, Mask.make 20 = Ok m /\ Mask.getPrefixLength m = 20
            /\ Mask.getSize m = (20 + 7) / 8.
Proof. apply (proj2 (mask_construction 20)). lia. Defined.

(** The stored octets of a mask are a left-justified run of exactly
    [prefixLength] one bits: read as one number over [8 * size] bits they
    are [2 ^ (8 * size) - 2 ^ (8 * size - prefixLength)]. *)
Theorem mask_octets_left_justified (p : Z) (m : Mask.t) :
  Mask.make p = Ok m ->
  is_octets (Mask._maskOctets m) = true
  /\ value (Mask._maskOctets m)
     = 2 ^ (8 * Mask.getSize m) - 2 ^ (8 * Mask.getSize m - p).
Proof.
  intros H. unfold Mask.make in H.
  destruct (Mask.isValidPrefixLength p) eqn:E; [|discriminate].
  cbn [negb] in H. injection H as <-.
  unfold Mask.isValidPrefixLength, Mask.MASK_MIN_PREFIX in E.
  apply andb_true_iff in E. destruct E as [E _]. apply Z.geb_le in E.
  unfold Mask.getSize. cbn [Mask._maskOctets].
  apply (setMaskOctets_shape (Z.to_nat p) p). lia.
Qed.

Lemma mask_octets_left_justified_witness :
  value (Mask.setMaskOctets 20) = 2 ^ 24 - 2 ^ 4.
Proof.
  apply (mask_octets_left_justified 20 (Mask.mk 20 (Mask.setMaskOctets 20))).
  reflexivity.
Defined.

Lemma nth_setMaskOctets (m : nat) (p : Z) (i : nat) :
  0 <= p <= 8 * Z.of_nat m ->
  nth i (Mask.setMaskOctets p) 0
  = if Z.of_nat i <? p / 8 then 255
    else if (Z.of_nat i =? p / 8) && negb (p mod 8 =? 0)
         then 256 - 2 ^ (8 - p mod 8)
         else 0.
Proof.
  revert p i. induction m as [|m IH]; intros p i Hp.
  - assert (p = 0) by lia. subst p. rewrite setMaskOctets_zero.
    change (0 / 8) with 0. change (0 mod 8) with 0.
    destruct (Z.ltb_spec (Z.of_nat i) 0); [lia|].
    cbn [Z.eqb negb andb]. rewrite andb_false_r. destruct i; reflexivity.
  - destruct (Z.eq_dec p 0) as [->|Hp0]; [|destruct (Z_lt_ge_dec p 8) as [Hp8|Hp8]].
    + rewrite setMaskOctets_zero.
      change (0 / 8) with 0. change (0 mod 8) with 0.
      destruct (Z.ltb_spec (Z.of_nat i) 0); [lia|].
      cbn [Z.eqb negb andb]. rewrite andb_false_r. destruct i; reflexivity.
    + rewrite setMaskOctets_partial by lia.
      rewrite Z.div_small, Z.mod_small by lia.
      destruct (Z.ltb_spec (Z.of_nat i) 0); [lia|].
      destruct (Z.eqb_spec p 0); [lia|]. cbn [negb]. rewrite andb_true_r.
      destruct i as [|i].
      * cbn [nth]. change (Z.of_nat 0 =? 0) with true. cbv iota.
        apply partial_mask_octet. lia.
      * destruct (Z.eqb_spec (Z.of_nat (S i)) 0); [lia|]. destruct i; reflexivity.
    + rewrite setMaskOctets_full by lia.
      assert (Hd : p / 8 = (p - 8) / 8 + 1).
      { replace p with ((p - 8) + 1 * 8) at 1 by ring.
        rewrite Z.div_add by lia. reflexivity. }
      assert (Hm : p mod 8 = (p - 8) mod 8).
      { replace p with ((p - 8) + 1 * 8) at 1 by ring.
        rewrite Z.mod_add by lia. reflexivity. }
      assert (0 <= (p - 8) / 8) by (apply Z.div_pos; lia).
      destruct i as [|i].
      * cbn [nth]. destruct (Z.ltb_spec (Z.of_nat 0) (p / 8)); [reflexivity|lia].
      * cbn [nth]. rewrite (IH (p - 8) i) by lia. rewrite Hd, Hm.
        rewrite Nat2Z.inj_succ.
        destruct (Z.ltb_spec (Z.of_nat i) ((p - 8) / 8));
          destruct (Z.ltb_spec (Z.succ (Z.of_nat i)) ((p - 8) / 8 + 1)); try lia.
        destruct (Z.eqb_spec (Z.of_nat i) ((p - 8) / 8));
          destruct (Z.eqb_spec (Z.succ (Z.of_nat i)) ((p - 8) / 8 + 1)); try lia;
          reflexivity.
Qed.

(** Indexed access to a mask of prefix length [p]: an index at or beyond
    the stored size throws [out_of_range]; below it the access returns 255
    for each of the [p / 8] full octets and, when [p] is not a multiple of
    8, [256 - 2 ^ (8 - p mod 8)] for the last, partial octet. *)
Theorem mask_subscript (p index : Z) (m : Mask.t) :
  Mask.make p = Ok m -> 0 <= index ->
  (Mask.getSize m <= index ->
   exists what, Mask_subscript m index = Throw (out_of_range what))
  /\ (index < p / 8 -> Mask_subscript m index = Ok 255)
  /\ (index = p / 8 -> p mod 8 <> 0 ->
      Mask_subscript m index = Ok (256 - 2 ^ (8 - p mod 8))).
Proof.
  intros H Hi. unfold Mask.make in H.
  destruct (Mask.isValidPrefixLength p) eqn:E; [|discriminate].
  cbn [negb] in H. injection H as <-.
  unfold Mask.isValidPrefixLength, Mask.MASK_MIN_PREFIX in E.
  apply andb_true_iff in E. destruct E as [E _]. apply Z.geb_le in E.
  destruct (setMaskOctets_shape (Z.to_nat p) p ltac:(lia)) as (S1 & _).
  cbv zeta in S1.
  unfold Mask_subscript, Mask.getSize. cbn [Mask._maskOctets]. rewrite S1.
  assert (Hsz : p / 8 <= (p + 7) / 8) by (apply Z.div_le_mono; lia).
  split; [|split].
  - intros Hge. destruct (Z.geb_spec index ((p + 7) / 8)); [|lia].
    eexists. reflexivity.
  - intros Hlt. destruct (Z.geb_spec index ((p + 7) / 8)); [lia|].
    rewrite (nth_setMaskOctets (Z.to_nat p)) by lia. rewrite Z2Nat.id by lia.
    destruct (Z.ltb_spec index (p / 8)); [reflexivity|lia].
  - intros -> Hm.
    assert (p / 8 < (p + 7) / 8).
    { pose proof (Z.div_mod p 8 ltac:(lia)) as Hdm.
      pose proof (Z.mod_pos_bound p 8 ltac:(lia)) as Hb.
      apply Z.lt_le_trans with (p / 8 + 1); [lia|].
      apply Z.div_le_lower_bound; lia. }
    destruct (Z.geb_spec (p / 8) ((p + 7) / 8)); [lia|].
    rewrite (nth_setMaskOctets (Z.to_nat p)) by lia. rewrite Z2Nat.id by lia.
    destruct (Z.ltb_spec (p / 8) (p / 8)); [lia|].
    rewrite Z.eqb_refl. destruct (Z.eqb_spec (p mod 8) 0); [contradiction|].
    reflexivity.
Qed.

Lemma mask_subscript_witness :
  Mask_subscript (Mask.mk 20 (Mask.setMaskOctets 20)) 2 = Ok (256 - 2 ^ (8 - 20 mod 8)).
Proof.
  destruct (mask_subscript 20 2 (Mask.mk 20 (Mask.setMaskOctets 20)))
    as (_ & _ & H); [reflexivity|lia|].
  apply H; [reflexivity|]. vm_compute. discriminate.
Defined.

(** [operator ~] keeps the prefix length and replaces every stored octet
    [b] by [255 - b]; applied twice it gives the mask back. *)
Theorem mask_complement_involutive (m : Mask.t) :
  is_octets (Mask._maskOctets m) = true ->
  Mask.getPrefixLength (Mask.complement m) = Mask.getPrefixLength m
  /\ Mask._maskOctets (Mask.complement m)
     = map (fun b => 255 - b) (Mask._maskOctets m)
  /\ Mask.complement (Mask.complement m) = m.
Proof.
  intros H. destruct m as [p l]. unfold Mask.complement. cbn [Mask._prefixLength
    Mask._maskOctets Mask.getPrefixLength] in *.
  assert (E : forall l, is_octets l = true ->
     map (fun b => to_uint8 (Z.lnot b)) l = map (fun b => 255 - b) l
     /\ is_octets (map (fun b => 255 - b) l) = true
     /\ map (fun b => 255 - b) (map (fun b => 255 - b) l) = l).
  { clear. induction l as [|b l IH]; intros H; [auto|].
    apply is_octets_cons in H. destruct H as [Hb Hl].
    destruct (IH Hl) as (I1 & I2 & I3). cbn [map]. rewrite I1, I3.
    assert (to_uint8 (Z.lnot b) = 255 - b) as ->.
    { unfold to_uint8, Z.lnot.
      replace (Z.pred (- b)) with ((255 - b) + (-1) * 256) by lia.
      rewrite Z.mod_add, Z.mod_small by lia. reflexivity. }
    split; [reflexivity|]. split; [apply is_octets_cons; split; [lia|exact I2]|].
    f_equal. lia. }
  destruct (E l H) as (E1 & E2 & E3).
  split; [reflexivity|]. split; [exact E1|].
  rewrite E1. destruct (E _ E2) as (E4 & _). rewrite E4, E3. reflexivity.
Qed.

Lemma mask_complement_involutive_witness :
  Mask.complement (Mask.complement (Mask.mk 20 (Mask.setMaskOctets 20)))
  = Mask.mk 20 (Mask.setMaskOctets 20).
Proof.
  apply (mask_complement_involutive (Mask.mk 20 (Mask.setMaskOctets 20))).
  reflexivity.
Defined.
(** ** Octet arithmetic of addresses *)







Lemma value_app l1 l2 :
  value (l1 ++ l2) = value l1 * 256 ^ Z.of_nat (List.length l2) + value l2.
Proof.
  unfold value at 1. rewrite fold_left_app, value_fold. reflexivity.
Qed.

Lemma rev_repeat_same {A} (x : A) n : rev (repeat x n) = repeat x n.
Proof.
  induction n as [|n IH]; [reflexivity|].
  cbn [repeat rev]. rewrite IH. symmetry. apply repeat_cons.
Qed.

Lemma inc_scan_trailing j x r :
  x <> 255 -> 0 <= x < 256 ->
  IPAddress.inc_scan (repeat 255 j ++ x :: r) = repeat 255 j ++ (x + 1) :: r.
Proof.
  intros Hx Hr. induction j as [|j IH].
  - apply inc_scan_value; assumption.
  - cbn [repeat app IPAddress.inc_scan]. change (255 =? 255) with true.
    cbn [negb]. rewrite IH. reflexivity.
Qed.

Lemma inc_scan_all_extreme j : IPAddress.inc_scan (repeat 255 j) = repeat 255 j.
Proof.
  induction j as [|j IH]; [reflexivity|].
  cbn [repeat IPAddress.inc_scan]. change (255 =? 255) with true.
  cbn [negb]. rewrite IH. reflexivity.
Qed.

Lemma dec_scan_trailing j x r :
  x <> 0 -> 0 <= x < 256 ->
  IPAddress.dec_scan (repeat 0 j ++ x :: r) = repeat 0 j ++ (x - 1) :: r.
Proof.
  intros Hx Hr. induction j as [|j IH].
  - apply dec_scan_value; assumption.
  - cbn [repeat app IPAddress.dec_scan]. change (0 =? 0) with true.
    cbn [negb]. rewrite IH. reflexivity.
Qed.

Lemma dec_scan_all_extreme j : IPAddress.dec_scan (repeat 0 j) = repeat 0 j.
Proof.
  induction j as [|j IH]; [reflexivity|].
  cbn [repeat IPAddress.dec_scan]. change (0 =? 0) with true.
  cbn [negb]. rewrite IH. reflexivity.
Qed.

(** [operator ++] increments the last octet that is not 255 and leaves the
    255 octets after it as they are: when [j] octets equal to 255 end the
    address, the value grows by [256 ^ j] (by one exactly when [j = 0]); an
    address made of 255 octets only is left unchanged. *)
Theorem increment_behaviour (k : IPAddress.family) (pre : list Z) (x : Z) (j : nat) :
  0 <= x < 255 ->
  let ip := IPAddress.mk k (pre ++ x :: repeat 255 j) in
  IPAddress.operator_inc ip = IPAddress.mk k (pre ++ (x + 1) :: repeat 255 j)
  /\ IPAddress.to_Z (IPAddress.operator_inc ip)
     = IPAddress.to_Z ip + 256 ^ Z.of_nat j
  /\ IPAddress.operator_inc (IPAddress.mk k (repeat 255 j))
     = IPAddress.mk k (repeat 255 j).
Proof.
  intros Hx. cbv zeta. unfold IPAddress.operator_inc, IPAddress.with_address, IPAddress.to_Z.
  cbn [IPAddress._address IPAddress.kind].
  rewrite rev_app_distr. cbn [rev]. rewrite rev_repeat_same, <- app_assoc.
  cbn [app]. rewrite inc_scan_trailing by lia.
  rewrite rev_app_distr. cbn [rev]. rewrite rev_repeat_same, rev_involutive, <- app_assoc.
  cbn [app]. rewrite inc_scan_all_extreme, rev_repeat_same.
  split; [reflexivity|]. split; [|reflexivity].
  rewrite !value_app, !value_cons. cbn [List.length]. rewrite !repeat_length. ring.
Qed.

Lemma increment_behaviour_witness :
  IPAddress.operator_inc (IPAddress.mk IPAddress.IPv4 ([1; 2] ++ 3 :: repeat 255 1))
  = IPAddress.mk IPAddress.IPv4 ([1; 2] ++ (3 + 1) :: repeat 255 1).
Proof.
  apply (increment_behaviour IPAddress.IPv4 [1; 2] 3 1). lia.
Defined.

(** [operator --] decrements the last octet that is not 0 and leaves the
    zero octets after it as they are: when [j] zero octets end the address,
    the value drops by [256 ^ j] (by one exactly when [j = 0]); an address
    made of zero octets only is left unchanged. *)
Theorem decrement_behaviour (k : IPAddress.family) (pre : list Z) (x : Z) (j : nat) :
  0 < x < 256 ->
  let ip := IPAddress.mk k (pre ++ x :: repeat 0 j) in
  IPAddress.operator_dec ip = IPAddress.mk k (pre ++ (x - 1) :: repeat 0 j)
  /\ IPAddress.to_Z (IPAddress.operator_dec ip)
     = IPAddress.to_Z ip - 256 ^ Z.of_nat j
  /\ IPAddress.operator_dec (IPAddress.mk k (repeat 0 j))
     = IPAddress.mk k (repeat 0 j).
Proof.
  intros Hx. cbv zeta. unfold IPAddress.operator_dec, IPAddress.with_address, IPAddress.to_Z.
  cbn [IPAddress._address IPAddress.kind].
  rewrite rev_app_distr. cbn [rev]. rewrite rev_repeat_same, <- app_assoc.
  cbn [app]. rewrite dec_scan_trailing by lia.
  rewrite rev_app_distr. cbn [rev]. rewrite rev_repeat_same, rev_involutive, <- app_assoc.
  cbn [app]. rewrite dec_scan_all_extreme, rev_repeat_same.
  split; [reflexivity|]. split; [|reflexivity].
  rewrite !value_app, !value_cons. cbn [List.length]. rewrite !repeat_length. ring.
Qed.

Lemma decrement_behaviour_witness :
  IPAddress.operator_dec (IPAddress.mk IPAddress.IPv4 ([1; 2] ++ 3 :: repeat 0 1))
  = IPAddress.mk IPAddress.IPv4 ([1; 2] ++ (3 - 1) :: repeat 0 1).
Proof.
  apply (decrement_behaviour IPAddress.IPv4 [1; 2] 3 1). lia.
Defined.

Lemma sub_scan_zero r : IPAddress.sub_scan r 0 = r.
Proof. destruct r; reflexivity. Qed.

(** Subtracting an [int] that does not exceed the last octet subtracts it
    from that octet and changes nothing else, so the value drops by exactly
    that amount. *)
Theorem integer_subtraction_within_last_octet (k : IPAddress.family)
    (pre : list Z) (x d : Z) :
  0 <= d <= x -> x < 256 ->
  IPAddress.operator_sub (IPAddress.mk k (pre ++ [x])) d
  = IPAddress.mk k (pre ++ [x - d])
  /\ IPAddress.to_Z (IPAddress.operator_sub (IPAddress.mk k (pre ++ [x])) d)
     = IPAddress.to_Z (IPAddress.mk k (pre ++ [x])) - d.
Proof.
  intros Hd Hx.
  assert (E : IPAddress.operator_sub (IPAddress.mk k (pre ++ [x])) d
              = IPAddress.mk k (pre ++ [x - d])).
  { unfold IPAddress.operator_sub, IPAddress.with_address.
    cbn [IPAddress._address IPAddress.kind].
    rewrite rev_app_distr. cbn [rev app IPAddress.sub_scan].
    destruct (Z.eqb_spec d 0) as [->|Hd0].
    - cbn [rev]. rewrite rev_involutive, Z.sub_0_r. reflexivity.
    - rewrite Z.rem_mod_nonneg, Z.quot_div_nonneg by lia.
      rewrite (Z.div_small (x - d)) by lia. rewrite sub_scan_zero.
      unfold to_uint8. rewrite Z.mod_mod, Z.mod_small by lia.
      cbn [rev]. rewrite rev_involutive. reflexivity. }
  split; [exact E|]. rewrite E. unfold IPAddress.to_Z.
  cbn [IPAddress._address]. rewrite !value_snoc. ring.
Qed.

Lemma integer_subtraction_within_last_octet_witness :
  IPAddress.operator_sub (IPAddress.mk IPAddress.IPv4 ([1; 2; 3] ++ [4])) 2
  = IPAddress.mk IPAddress.IPv4 ([1; 2; 3] ++ [4 - 2]).
Proof.
  apply (integer_subtraction_within_last_octet IPAddress.IPv4 [1; 2; 3] 4 2); lia.
Defined.
(** ** Networks: construction *)

(** The constructor of a network throws [invalid_argument] exactly when
    the prefix length is outside the range of the family of the address
    (1..32 for IPv4, 1..128 for IPv6); the check of [Mask] never fires
    after it. *)
Theorem network_constructor_domain (k : IPAddress.family) (a : IPAddress.t) (p : Z) :
  (1 <= p <= width (IPAddress.kind a) ->
   exists net, make_network k a p = Ok net /\ Network.getPrefixLength net = p
               /\ Network._subnets net = [])
  /\ (p < 1 \/ width (IPAddress.kind a) < p ->
      make_network k a p
      = Throw (invalid_argument "Prefix length is not compatible with address type.")).
Proof.
  split.
  - intros Hp. exists (built_network k a p).
    split; [apply make_network_ok; exact Hp|].
    split; [apply built_network_prefix|]. destruct k; reflexivity.
  - intros Hp.
    assert (E : Network.isPrefixLengthCompatible a p = false).
    { destruct (Network.isPrefixLengthCompatible a p) eqn:E; [|reflexivity].
      apply isPrefixLengthCompatible_range in E. lia. }
    destruct k; unfold make_network, IPv4Network.make, IPv6Network.make,
      Network.make; rewrite E; reflexivity.
Qed.

Lemma network_constructor_domain_witness :
  make_network IPAddress.IPv4 (addr4 1 2 3 4) 33
  = Throw (invalid_argument "Prefix length is not compatible with address type.").
Proof.
  apply (proj2 (network_constructor_domain IPAddress.IPv4 (addr4 1 2 3 4) 33)).
  right. simpl. lia.
Defined.

Lemma div_mul_mod v B : 0 < B -> v / B * B = v - v mod B.
Proof. intros HB. pose proof (Z.div_mod v B ltac:(lia)). lia. Qed.

Lemma address_block_top (k : IPAddress.family) (a : IPAddress.t) (p : Z)
    (net : Network.t) :
  well_formed k a = true ->
  make_network k a p = Ok net ->
  let block := 2 ^ (width k - p) in
  let top := IPAddress.operator_or (Network._ip net)
               (Mask.complement (Network._mask net)) in
  1 <= p <= width k
  /\ Network.getPrefixLength net = p
  /\ IPAddress.to_Z (Network._ip net) = IPAddress.to_Z a - IPAddress.to_Z a mod block
  /\ 0 <= IPAddress.to_Z a mod block < block
  /\ IPAddress.to_Z top = IPAddress.to_Z (Network._ip net) + block - 1
  /\ match k with
     | IPAddress.IPv4 => Network._broadcastIp net = Some top
     | IPAddress.IPv6 => Network._lastIp net = top
     end.
Proof.
  intros Hwf Hmake. cbv zeta.
  pose proof (well_formed_inv _ _ Hwf) as (Hk & Hlen & Ho).
  apply make_network_inv in Hmake. destruct Hmake as [Hp ->]. rewrite Hk in Hp.
  destruct (masked_value (IPAddress._address a) p Ho ltac:(lia)) as (_ & M2 & _ & M4).
  rewrite Hlen in M2, M4.
  set (B := 2 ^ (width k - p)) in *.
  assert (HB : 0 < B) by (apply Z.pow_pos_nonneg; lia).
  rewrite div_mul_mod in M2 by exact HB.
  split; [exact Hp|]. split; [apply built_network_prefix|].
  split; [rewrite built_network_ip; exact M2|].
  split; [apply Z.mod_pos_bound; exact HB|].
  split; [rewrite built_network_ip; destruct k; exact M4|].
  destruct k; reflexivity.
Qed.

(** For every prefix length the constructor accepts, the address the
    network was built from lies in the block of the network: the base is
    the address with its [width - p] host bits cleared,
    [base OR complement(mask)] is the base with these bits set, and the
    address is between the two.  The latter is the broadcast address of an
    IPv4 network and the last address of an IPv6 network. *)
Theorem address_in_block (k : IPAddress.family) (a : IPAddress.t) (p : Z)
    (net : Network.t) :
  well_formed k a = true ->
  make_network k a p = Ok net ->
  let block := 2 ^ (width k - p) in
  let top := IPAddress.operator_or (Network._ip net)
               (Mask.complement (Network._mask net)) in
  IPAddress.to_Z (Network._ip net) = IPAddress.to_Z a - IPAddress.to_Z a mod block
  /\ IPAddress.to_Z top = IPAddress.to_Z (Network._ip net) + block - 1
  /\ IPAddress.to_Z (Network._ip net) <= IPAddress.to_Z a <= IPAddress.to_Z top
  /\ match k with
     | IPAddress.IPv4 => Network._broadcastIp net = Some top
     | IPAddress.IPv6 => Network._lastIp net = top
     end.
Proof.
  intros Hwf Hmake. cbv zeta.
  destruct (address_block_top k a p net Hwf Hmake) as (_ & _ & E1 & Hm & E2 & E3).
  split; [exact E1|]. split; [exact E2|]. split; [|exact E3].
  rewrite E2, E1. lia.
Qed.

Lemma address_in_block_witness :
  IPAddress.to_Z (Network._ip (built_network IPAddress.IPv4 (addr4 1 2 3 4) 32))
  <= IPAddress.to_Z (addr4 1 2 3 4)
  <= IPAddress.to_Z
       (IPAddress.operator_or
          (Network._ip (built_network IPAddress.IPv4 (addr4 1 2 3 4) 32))
          (Mask.complement
             (Network._mask (built_network IPAddress.IPv4 (addr4 1 2 3 4) 32)))).
Proof.
  destruct (address_in_block IPAddress.IPv4 (addr4 1 2 3 4) 32
              (built_network IPAddress.IPv4 (addr4 1 2 3 4) 32))
    as (_ & _ & H & _); [reflexivity|reflexivity|exact H].
Defined.

Lemma capacity_value ip p :
  1 <= p ->
  IPAddress.calculateCapacity ip p = if p <? 32 then 2 ^ (32 - p) else 65536.
Proof.
  intros Hp. unfold IPAddress.calculateCapacity.
  destruct (Z.ltb_spec p 32) as [Hlt|Hge].
  - destruct (Z.geb_spec p 32) as [?|_]; [lia|].
    pose proof (forallb_range
      (fun q => (q =? 0)
                || (to_uint32 (to_int (Z.shiftl 1 (32 - q))) =? 2 ^ (32 - q)))
      32 ltac:(vm_compute; reflexivity) p) as H.
    cbv beta in H. change (Z.of_nat 32) with 32 in H.
    specialize (H ltac:(lia)).
    destruct (Z.eqb_spec p 0) as [?|_]; [lia|].
    apply Z.eqb_eq in H. exact H.
  - destruct (Z.geb_spec p 32) as [_|?]; [reflexivity|lia].
Qed.

(** For an IPv4 network of prefix length below 32 the capacity is the
    number of addresses of its block, from the base to the broadcast
    address inclusive. *)
Theorem ipv4_capacity_is_block_size (a : IPAddress.t) (p : Z)
    (net : Network.t) (broadcast : IPAddress.t) :
  well_formed IPAddress.IPv4 a = true -> p < 32 ->
  IPv4Network.make a p = Ok net ->
  Network._broadcastIp net = Some broadcast ->
  IPAddress.calculateCapacity (Network._ip net) (Network.getPrefixLength net)
  = IPAddress.to_Z broadcast - IPAddress.to_Z (Network._ip net) + 1.
Proof.
  intros Hwf Hp Hmake Hb.
  change IPv4Network.make with (make_network IPAddress.IPv4) in Hmake.
  destruct (address_block_top IPAddress.IPv4 a p net Hwf Hmake) as (Hp1 & Hpre & _ & _ & Htop & Hbc).
  rewrite Hb in Hbc. injection Hbc as ->.
  rewrite Hpre, capacity_value by lia.
  destruct (Z.ltb_spec p 32); [|lia]. rewrite Htop. cbn [width]. ring.
Qed.

Lemma ipv4_capacity_is_block_size_witness :
  IPAddress.calculateCapacity
    (Network._ip (built_network IPAddress.IPv4 (addr4 1 2 3 4) 24))
    (Network.getPrefixLength (built_network IPAddress.IPv4 (addr4 1 2 3 4) 24))
  = IPAddress.to_Z (addr4 1 2 3 255)
    - IPAddress.to_Z (Network._ip (built_network IPAddress.IPv4 (addr4 1 2 3 4) 24))
    + 1.
Proof.
  apply (ipv4_capacity_is_block_size (addr4 1 2 3 4) 24
           (built_network IPAddress.IPv4 (addr4 1 2 3 4) 24) (addr4 1 2 3 255)).
  - reflexivity.
  - lia.
  - reflexivity.
  - reflexivity.
Defined.
(** ** Networks: segmentation *)

Lemma and_scan_idempotent a m :
  IPAddress.and_scan (IPAddress.and_scan a m) m = IPAddress.and_scan a m.
Proof.
  revert m. induction a as [|o a IH]; intros m; [reflexivity|].
  destruct m as [|mo m]; cbn [IPAddress.and_scan]; rewrite IH; [reflexivity|].
  rewrite <- Z.land_assoc, Z.land_diag. reflexivity.
Qed.

Lemma operator_and_idempotent a m :
  IPAddress.operator_and (IPAddress.operator_and a m) m = IPAddress.operator_and a m.
Proof.
  unfold IPAddress.operator_and, IPAddress.with_address.
  cbn [IPAddress._address IPAddress.kind]. rewrite and_scan_idempotent. reflexivity.
Qed.

Lemma built_network_same_base k x y p :
  IPAddress.operator_and x (Mask.mk p (Mask.setMaskOctets p))
  = IPAddress.operator_and y (Mask.mk p (Mask.setMaskOctets p)) ->
  built_network k x p = built_network k y p.
Proof.
  intros E. destruct k; unfold built_network, built; cbv zeta;
    cbn [Network._ip Network._firstIp Network._lastIp Network._mask];
    rewrite E; reflexivity.
Qed.

Lemma with_address_same ip : IPAddress.with_address ip (IPAddress._address ip) = ip.
Proof. destruct ip. reflexivity. Qed.

Lemma add_scan_zero r : IPAddress.add_scan r 0 = r.
Proof. destruct r; reflexivity. Qed.

Lemma child_address_first k base np : child_address k base np 0 = base.
Proof.
  destruct k; cbn [child_address]; [|reflexivity].
  rewrite Z.mul_0_r. change (to_int (to_uint32 0)) with 0.
  unfold IPAddress.operator_add. rewrite add_scan_zero, rev_involutive.
  apply with_address_same.
Qed.

Lemma capacity_positive ip p : 1 <= p -> 1 <= IPAddress.calculateCapacity ip p.
Proof.
  intros Hp. rewrite capacity_value by exact Hp.
  destruct (Z.ltb_spec p 32); [|lia].
  assert (0 < 2 ^ (32 - p)) by (apply Z.pow_pos_nonneg; lia). lia.
Qed.

(** [segment(1)] always succeeds on a constructed network and leaves a
    single subnet that is a copy of the network as it was built: same base,
    same prefix length, same first, last and broadcast addresses. *)
Theorem segment_into_one (k : IPAddress.family) (a : IPAddress.t) (p : Z)
    (net0 : Network.t) (subs : list Network.t) :
  IPAddress.kind a = k ->
  make_network k a p = Ok net0 ->
  segment k 1 (Network.with_subnets net0 subs)
  = (Ok tt, Network.with_subnets net0 [net0]).
Proof.
  intros Hk Hmake. apply make_network_inv in Hmake. destruct Hmake as [Hp ->].
  rewrite Hk in Hp.
  rewrite segment_run; try assumption; try lia.
  - change (Z.log2_up 1) with 0. rewrite Z.add_0_r.
    change (Z.to_nat 1) with 1%nat. cbn [indices seq map]. rewrite Z.add_0_l.
    change (Z.of_nat 0) with 0. rewrite child_address_first, built_network_ip.
    rewrite (built_network_same_base k
               (IPAddress.operator_and a (Mask.mk p (Mask.setMaskOctets p))) a p)
      by apply operator_and_idempotent.
    reflexivity.
  - apply capacity_positive. lia.
  - change (Z.log2_up 1) with 0. lia.
Qed.

Lemma segment_into_one_witness :
  segment IPAddress.IPv6 1
    (Network.with_subnets (built_network IPAddress.IPv6 (addr6 (repeat 7 16)) 128) [])
  = (Ok tt,
     Network.with_subnets (built_network IPAddress.IPv6 (addr6 (repeat 7 16)) 128)
       [built_network IPAddress.IPv6 (addr6 (repeat 7 16)) 128]).
Proof.
  apply (segment_into_one IPAddress.IPv6 (addr6 (repeat 7 16)) 128
           (built_network IPAddress.IPv6 (addr6 (repeat 7 16)) 128) []);
    reflexivity.
Defined.

Lemma segment_capacity_check k a p subs n :
  1 <= n ->
  n > IPAddress.calculateCapacity (Network._ip (built_network k a p)) p ->
  fst (segment k n (Network.with_subnets (built_network k a p) subs)) <> Ok tt.
Proof.
  intros Hn Hc.
  destruct k; unfold segment, IPv4Network.segment, IPv6Network.segment;
    (destruct (Z.ltb_spec n 1); [lia|]);
    change (Network.getPrefixLength (Network.with_subnets ?x subs))
      with (Network.getPrefixLength x);
    change (Network._ip (Network.with_subnets ?x subs)) with (Network._ip x);
    rewrite built_network_prefix;
    (match goal with |- context [?x >? IPAddress.calculateCapacity ?y ?z] =>
       destruct (Z.gtb_spec x (IPAddress.calculateCapacity y z)) end; [|lia]);
    discriminate.
Qed.

Lemma segment_count_check k net n :
  n < 1 -> fst (segment k n net) <> Ok tt.
Proof.
  intros Hn. destruct k; unfold segment, IPv4Network.segment, IPv6Network.segment;
    (destruct (Z.ltb_spec n 1); [|lia]); discriminate.
Qed.

Lemma segment_succeeds_iff_aux (k : IPAddress.family) (a : IPAddress.t) (p n : Z)
    (net0 : Network.t) (subs : list Network.t) :
  IPAddress.kind a = k ->
  make_network k a p = Ok net0 ->
  fst (segment k n (Network.with_subnets net0 subs)) = Ok tt
  <-> 1 <= n <= IPAddress.calculateCapacity (Network._ip net0) p
      /\ p + Z.log2_up n <= width k.
Proof.
  intros Hk Hmake. apply make_network_inv in Hmake. destruct Hmake as [Hp ->].
  rewrite Hk in Hp. split.
  - intros Hok.
    destruct (Z_lt_ge_dec n 1) as [Hn|Hn];
      [exfalso; revert Hok; apply segment_count_check; exact Hn|].
    destruct (Z_le_gt_dec n (IPAddress.calculateCapacity
                               (Network._ip (built_network k a p)) p)) as [Hc|Hc];
      [|exfalso; revert Hok; apply segment_capacity_check; lia].
    destruct (Z_le_gt_dec (p + Z.log2_up n) (width k)) as [Hw|Hw];
      [|exfalso; revert Hok; apply segment_prefix_check; lia].
    lia.
  - intros [Hn Hw]. rewrite segment_run by (assumption || lia). reflexivity.
Qed.

(** [segment(n)] succeeds on a constructed network exactly when [n] is at
    least 1, at most the capacity of the current prefix length, and the new
    prefix length [p + ceil(log2 n)] does not exceed the width of the
    family. *)
Theorem segment_succeeds_iff (k : IPAddress.family) (a : IPAddress.t) (p n : Z)
    (net0 : Network.t) (subs : list Network.t) :
  IPAddress.kind a = k ->
  make_network k a p = Ok net0 ->
  fst (segment k n (Network.with_subnets net0 subs)) = Ok tt
  <-> 1 <= n <= IPAddress.calculateCapacity (Network._ip net0) p
      /\ p + Z.log2_up n <= width k.
Proof. apply segment_succeeds_iff_aux. Qed.

Lemma segment_succeeds_iff_witness :
  fst (segment IPAddress.IPv4 256
         (Network.with_subnets (built_network IPAddress.IPv4 (addr4 1 2 3 4) 24) []))
  = Ok tt.
Proof.
  apply (segment_succeeds_iff IPAddress.IPv4 (addr4 1 2 3 4) 24 256
           (built_network IPAddress.IPv4 (addr4 1 2 3 4) 24) []).
  - reflexivity.
  - reflexivity.
  - change (1 <= 256 <= 256 /\ 32 <= 32). lia.
Defined.

(** A successful [segment] changes nothing but the list of subnets, and
    the new list does not depend on the subnets an earlier call left
    behind. *)
Theorem segment_replaces_subnets (k : IPAddress.family) (a : IPAddress.t) (p n : Z)
    (net0 : Network.t) (subs subs' : list Network.t) :
  IPAddress.kind a = k ->
  make_network k a p = Ok net0 ->
  fst (segment k n (Network.with_subnets net0 subs)) = Ok tt ->
  let net := snd (segment k n (Network.with_subnets net0 subs)) in
  Network.with_subnets net [] = net0
  /\ net = snd (segment k n (Network.with_subnets net0 subs')).
Proof.
  intros Hk Hmake Hok. cbv zeta.
  pose proof (proj1 (segment_succeeds_iff_aux k a p n net0 subs Hk Hmake) Hok)
    as [Hn Hw].
  apply make_network_inv in Hmake. destruct Hmake as [Hp ->]. rewrite Hk in Hp.
  rewrite !segment_run by (assumption || lia). cbn [snd].
  split; [destruct k; reflexivity|reflexivity].
Qed.

Lemma segment_replaces_subnets_witness :
  snd (segment IPAddress.IPv4 4
         (Network.with_subnets (built_network IPAddress.IPv4 (addr4 1 2 3 4) 24)
            [built_network IPAddress.IPv4 (addr4 9 9 9 0) 30]))
  = snd (segment IPAddress.IPv4 4
           (Network.with_subnets (built_network IPAddress.IPv4 (addr4 1 2 3 4) 24) [])).
Proof.
  apply (segment_replaces_subnets IPAddress.IPv4 (addr4 1 2 3 4) 24 4
           (built_network IPAddress.IPv4 (addr4 1 2 3 4) 24)
           [built_network IPAddress.IPv4 (addr4 9 9 9 0) 30] []).
  - reflexivity.
  - reflexivity.
  - vm_compute. reflexivity.
Defined.

(** The base of the subnet built for index [i]. *)
Lemma child_network_base k a p n i :
  well_formed k a = true -> 1 <= p -> 1 <= n ->
  p + Z.log2_up n <= width k -> 0 <= i < n ->
  let base := Network._ip (built_network k a p) in
  let np := p + Z.log2_up n in
  let x := child_address k base np i in
  IPAddress.to_Z (Network._ip (built_network k x np))
  = IPAddress.to_Z base + i * 2 ^ (width k - np)
  /\ well_formed k x = true.
Proof.
  intros Hwf Hp Hn Hw Hi. cbv zeta.
  pose proof (Z.log2_up_nonneg n) as Hlg.
  rewrite !built_network_ip.
  destruct (child_address_value k a p n i Hwf Hp Hn Hw Hi) as [Hv Hx].
  cbv zeta in Hv, Hx.
  set (np := p + Z.log2_up n) in *.
  set (block := 2 ^ (width k - np)) in *.
  assert (Hblock : 0 < block) by (apply Z.pow_pos_nonneg; unfold np; lia).
  set (x := child_address k
              (IPAddress.operator_and a (Mask.mk p (Mask.setMaskOctets p))) np i) in *.
  split; [|exact Hx].
  apply well_formed_inv in Hx. destruct Hx as (_ & Hxl & Hxo).
  destruct (masked_value (IPAddress._address x) np Hxo
              ltac:(unfold np in *; lia)) as (_ & M2 & _).
  rewrite Hxl in M2. fold block in M2.
  unfold IPAddress.to_Z at 1. unfold IPAddress.operator_and at 1.
  cbn [IPAddress._address IPAddress.with_address Mask._maskOctets].
  rewrite M2. fold (IPAddress.to_Z x). rewrite Hv.
  apply well_formed_inv in Hwf. destruct Hwf as (_ & Hal & Hao).
  destruct (masked_value (IPAddress._address a) p Hao ltac:(lia)) as (_ & N2 & _).
  rewrite Hal in N2.
  pose proof (value_bounds _ Hao) as Hv0. rewrite pow_256, Hal in Hv0 by lia.
  destruct (block_arithmetic (width k) p n _ Hp Hn Hw Hv0) as (_ & HB & _).
  fold np in HB. fold block in HB.
  unfold IPAddress.to_Z at 1 2. unfold IPAddress.operator_and.
  cbn [IPAddress._address IPAddress.with_address Mask._maskOctets].
  rewrite N2, HB.
  set (q := value (IPAddress._address a) / (2 ^ Z.log2_up n * block)).
  replace (q * (2 ^ Z.log2_up n * block) + i * block)
    with ((q * 2 ^ Z.log2_up n + i) * block) by ring.
  rewrite Z.div_mul by lia. reflexivity.
Qed.

(** What a successful [segment] leaves in the network, subnet by subnet. *)
Lemma segment_subnet (k : IPAddress.family) (a : IPAddress.t) (p n : Z)
    (net0 : Network.t) (subs : list Network.t) (i : nat) (c : Network.t) :
  well_formed k a = true ->
  make_network k a p = Ok net0 ->
  fst (segment k n (Network.with_subnets net0 subs)) = Ok tt ->
  nth_error (Network._subnets (snd (segment k n (Network.with_subnets net0 subs)))) i
  = Some c ->
  let np := p + Z.log2_up n in
  let x := child_address k (Network._ip net0) np (Z.of_nat i) in
  1 <= p /\ 1 <= n /\ np <= width k /\ Z.of_nat i < n
  /\ c = built_network k x np
  /\ well_formed k x = true
  /\ IPAddress.to_Z (Network._ip c)
     = IPAddress.to_Z (Network._ip net0) + Z.of_nat i * 2 ^ (width k - np).
Proof.
  intros Hwf Hmake Hok Hc. cbv zeta.
  pose proof (well_formed_inv _ _ Hwf) as (Hk & _ & _).
  pose proof (proj1 (segment_succeeds_iff_aux k a p n net0 subs Hk Hmake) Hok)
    as [Hn Hw].
  apply make_network_inv in Hmake. destruct Hmake as [Hp ->]. rewrite Hk in Hp.
  rewrite segment_run in Hc by (assumption || lia).
  cbn [snd] in Hc. rewrite subnets_with_subnets in Hc.
  apply nth_error_map_indices in Hc. destruct Hc as [Hi ->].
  destruct (child_network_base k a p n (Z.of_nat i) Hwf ltac:(lia) ltac:(lia) Hw
              ltac:(lia)) as [Hb Hx].
  cbv zeta in Hb, Hx. repeat split; try assumption; lia.
Qed.



(** Every subnet of a successful [segment] whose new prefix length is below
    the width of the family has the usable range of its own block: the
    first address is its base plus one; for IPv4 the broadcast address is
    the last address of the block and the last usable address is one below
    it; for IPv6 the last address is the last address of the block. *)
Theorem subnet_ranges (k : IPAddress.family) (a : IPAddress.t) (p n : Z)
    (net0 : Network.t) (subs : list Network.t) (i : nat) (c : Network.t) :
  well_formed k a = true ->
  make_network k a p = Ok net0 ->
  fst (segment k n (Network.with_subnets net0 subs)) = Ok tt ->
  p + Z.log2_up n < width k ->
  nth_error (Network._subnets (snd (segment k n (Network.with_subnets net0 subs)))) i
  = Some c ->
  let block := 2 ^ (width k - (p + Z.log2_up n)) in
  IPAddress.to_Z (Network._firstIp c) = IPAddress.to_Z (Network._ip c) + 1
  /\ match k with
     | IPAddress.IPv4 =>
         exists b, Network._broadcastIp c = Some b
                   /\ IPAddress.to_Z b = IPAddress.to_Z (Network._ip c) + block - 1
                   /\ IPAddress.to_Z (Network._lastIp c)
                      = IPAddress.to_Z (Network._ip c) + block - 2
     | IPAddress.IPv6 =>
         IPAddress.to_Z (Network._lastIp c)
         = IPAddress.to_Z (Network._ip c) + block - 1
     end.
Proof.
  intros Hwf Hmake Hok Hlt Hc. cbv zeta.
  destruct (segment_subnet k a p n net0 subs i c Hwf Hmake Hok Hc)
    as (Hp & Hn & Hw & Hi & -> & Hx & _).
  pose proof (Z.log2_up_nonneg n) as Hlg.
  destruct (built_addresses k _ (p + Z.log2_up n) Hx ltac:(lia))
    as (_ & _ & B3 & B4 & B5).
  destruct k; cbn [built_network built Network._ip Network._firstIp
                     Network._lastIp Network._broadcastIp].
  - split; [exact B3|]. eexists. split; [reflexivity|]. split; [exact B4|].
    rewrite B5, B4. ring.
  - split; [exact B3|exact B4].
Qed.

Lemma subnet_ranges_witness :
  IPAddress.to_Z (Network._firstIp
                    (built_network IPAddress.IPv4 (addr4 1 2 3 64) 26))
  = IPAddress.to_Z (Network._ip (built_network IPAddress.IPv4 (addr4 1 2 3 64) 26)) + 1.
Proof.
  apply (subnet_ranges IPAddress.IPv4 (addr4 1 2 3 4) 24 4
           (built_network IPAddress.IPv4 (addr4 1 2 3 4) 24) [] 1
           (built_network IPAddress.IPv4 (addr4 1 2 3 64) 26)).
  - reflexivity.
  - reflexivity.
  - vm_compute. reflexivity.
  - vm_compute. reflexivity.
  - vm_compute. reflexivity.
Defined.

Lemma indices_length i count : List.length (indices i count) = count.
Proof. unfold indices. rewrite length_map, length_seq. reflexivity. Qed.

(** After a successful [segment(n)] the subnet lookup returns the subnet of
    index [i] for every [i] below [n] and throws [out_of_range] for every
    other index. *)
Theorem subnet_lookup_after_segment (k : IPAddress.family) (a : IPAddress.t)
    (p n index : Z) (net0 : Network.t) (subs : list Network.t) :
  IPAddress.kind a = k ->
  make_network k a p = Ok net0 ->
  fst (segment k n (Network.with_subnets net0 subs)) = Ok tt ->
  0 <= index ->
  let net := snd (segment k n (Network.with_subnets net0 subs)) in
  (index < n ->
   exists c, Network_subscript net index = Ok c
             /\ nth_error (Network._subnets net) (Z.to_nat index) = Some c
             /\ Network.getPrefixLength c = p + Z.log2_up n)
  /\ (n <= index ->
      exists what, Network_subscript net index = Throw (out_of_range what)).
Proof.
  intros Hk Hmake Hok Hi. cbv zeta.
  pose proof (proj1 (segment_succeeds_iff_aux k a p n net0 subs Hk Hmake) Hok)
    as [Hn Hw].
  apply make_network_inv in Hmake. destruct Hmake as [Hp ->]. rewrite Hk in Hp.
  rewrite segment_run by (assumption || lia). cbn [snd].
  unfold Network_subscript, Network.getSubnetCount.
  rewrite subnets_with_subnets, length_map, indices_length, Z2Nat.id by lia.
  split.
  - intros Hlt. destruct (Z.geb_spec index n); [lia|].
    rewrite nth_error_map. unfold indices. rewrite nth_error_map.
    rewrite (nth_error_nth' _ 0%nat) by (rewrite length_seq; lia).
    rewrite seq_nth by lia. cbn [option_map].
    eexists. split; [reflexivity|]. split; [reflexivity|].
    apply built_network_prefix.
  - intros Hge. destruct (Z.geb_spec index n); [|lia]. eexists. reflexivity.
Qed.

Lemma subnet_lookup_after_segment_witness :
  exists what,
    Network_subscript
      (snd (segment IPAddress.IPv4 4
              (Network.with_subnets (built_network IPAddress.IPv4 (addr4 1 2 3 4) 24) [])))
      4
    = Throw (out_of_range what).
Proof.
  destruct (subnet_lookup_after_segment IPAddress.IPv4 (addr4 1 2 3 4) 24 4 4
              (built_network IPAddress.IPv4 (addr4 1 2 3 4) 24) [])
    as (_ & H).
  - reflexivity.
  - reflexivity.
  - vm_compute. reflexivity.
  - lia.
  - apply H. lia.
Defined.
(** ** Splitting of texts *)

Lemma split_scan_nonempty d s skip tok : split_scan d s skip tok <> [].
Proof.
  revert skip tok. induction s as [|c s IH]; intros skip tok; [discriminate|].
  cbn [split_scan]. destruct skip; [|apply IH].
  destruct (starts_with d (String c s)); [discriminate|apply IH].
Qed.

Lemma join_cons d x l :
  l <> [] -> join d (x :: l) = (x ++ d ++ join d l)%string.
Proof. intros H. destruct l; [contradiction|reflexivity]. Qed.

Lemma starts_with_drop d s :
  starts_with d s = true -> s = (d ++ drop (String.length d) s)%string.
Proof.
  revert s. induction d as [|a d IH]; intros s H; [reflexivity|].
  destruct s as [|b s]; [discriminate|]. cbn [starts_with] in H.
  apply andb_true_iff in H. destruct H as [Hab Hs].
  apply Ascii.eqb_eq in Hab. subst b.
  cbn [String.length drop append]. f_equal. apply IH. exact Hs.
Qed.

Lemma append_assoc_string (a b c : string) :
  ((a ++ b) ++ c)%string = (a ++ b ++ c)%string.
Proof. induction a as [|x a IH]; [reflexivity|]. simpl. rewrite IH. reflexivity. Qed.

Lemma split_scan_join d s skip tok :
  d <> EmptyString ->
  join d (split_scan d s skip tok) = (tok ++ drop skip s)%string.
Proof.
  intros Hd. revert skip tok. induction s as [|c s IH]; intros skip tok.
  - cbn [split_scan join]. destruct skip; cbn [drop]; rewrite append_empty_r;
      reflexivity.
  - cbn [split_scan]. destruct skip as [|skip].
    + destruct (starts_with d (String c s)) eqn:E.
      * rewrite join_cons by apply split_scan_nonempty.
        rewrite IH. cbn [append drop].
        apply starts_with_drop in E. rewrite E at 1.
        destruct d as [|a d]; [contradiction|].
        replace (String.length (String a d) - 1)%nat with (String.length d)
          by (cbn [String.length]; lia).
        reflexivity.
      * rewrite IH. cbn [drop]. apply append_snoc.
    + rewrite IH. reflexivity.
Qed.

(** [split] loses nothing and always returns at least one token: for a
    delimiter that is not empty, joining the tokens with the delimiter
    gives the text back. *)
Theorem split_join (s d : string) :
  d <> EmptyString -> split s d <> [] /\ join d (split s d) = s.
Proof.
  intros Hd. unfold split. split; [apply split_scan_nonempty|].
  rewrite split_scan_join by exact Hd. reflexivity.
Qed.

Lemma split_join_witness :
  join "::" (split "2001:db8::8a2e:::7334" "::") = "2001:db8::8a2e:::7334"%string.
Proof. apply (split_join "2001:db8::8a2e:::7334" "::"). discriminate. Defined.

(** ** Parsing of addresses *)

Lemma nth_octet l i :
  is_octets l = true -> (i < List.length l)%nat -> 0 <= nth i l 0 < 256.
Proof.
  revert i. induction l as [|b l IH]; intros i H Hi; [simpl in Hi; lia|].
  apply is_octets_cons in H. destruct H as [Hb Hl].
  destruct i; cbn [nth]; [exact Hb|]. apply IH; [exact Hl|simpl in Hi; lia].
Qed.

(** An address that was parsed has the octet count of its family (4 or
    16); indexed access returns a value in 0..255 for every index below
    that count and throws [out_of_range] for every other index. *)
Theorem parsed_address_octets (k : IPAddress.family) (text : string)
    (a : IPAddress.t) (index : Z) :
  make_address k text = Ok a -> 0 <= index ->
  IPAddress.getSize a = Z.of_nat (num_octets k)
  /\ (index < Z.of_nat (num_octets k) ->
      exists o, IPAddress_subscript a index = Ok o /\ 0 <= o <= 255)
  /\ (Z.of_nat (num_octets k) <= index ->
      exists what, IPAddress_subscript a index = Throw (out_of_range what)).
Proof.
  intros H Hi. apply make_address_well_formed in H.
  unfold well_formed in H.
  apply andb_true_iff in H. destruct H as [H H3].
  apply andb_true_iff in H. destruct H as [_ H2]. apply Nat.eqb_eq in H2.
  unfold IPAddress_subscript, IPAddress.getSize. rewrite H2.
  split; [reflexivity|]. split.
  - intros Hlt. destruct (Z.geb_spec index (Z.of_nat (num_octets k))); [lia|].
    eexists. split; [reflexivity|].
    pose proof (nth_octet _ (Z.to_nat index) H3 ltac:(lia)). lia.
  - intros Hge. destruct (Z.geb_spec index (Z.of_nat (num_octets k))); [|lia].
    eexists. reflexivity.
Qed.

Lemma parsed_address_octets_witness :
  exists o, IPAddress_subscript (addr4 1 2 3 4) 3 = Ok o /\ 0 <= o <= 255.
Proof.
  destruct (parsed_address_octets IPAddress.IPv4 "1.2.3.4" (addr4 1 2 3 4) 3)
    as (_ & H & _).
  - reflexivity.
  - lia.
  - apply H. simpl. lia.
Defined.

Lemma stoi_nonneg_digits base s acc :
  0 <= base ->
  match acc with Some a => 0 <= a | None => True end ->
  match read_digits base s acc with Some v => 0 <= v | None => True end.
Proof.
  intros Hb. revert acc. induction s as [|c s IH]; intros acc Ha; [exact Ha|].
  cbn [read_digits]. destruct (digit_value base c) as [v|] eqn:E; [|exact Ha].
  apply IH. unfold digit_value in E.
  destruct (Z.ltb_spec
              (if isdigit c then code c - 48
               else if (97 <=? code c) && (code c <=? 122) then code c - 87
               else if (65 <=? code c) && (code c <=? 90) then code c - 55
               else base) base) as [Hlt|]; [|discriminate].
  injection E as <-.
  assert (0 <= (if isdigit c then code c - 48
                else if (97 <=? code c) && (code c <=? 122) then code c - 87
                else if (65 <=? code c) && (code c <=? 90) then code c - 55
                else base)).
  { unfold isdigit.
    repeat match goal with
           | |- context [Z.leb ?x ?y] => destruct (Z.leb_spec x y)
           end; cbn [andb]; lia. }
  destruct acc as [a0|]; nia.
Qed.

Lemma stoi_nonneg s base v : 0 <= base -> stoi s base = Ok v -> 0 <= v.
Proof.
  intros Hb H. unfold stoi in H.
  pose proof (stoi_nonneg_digits base s None Hb I) as Hn.
  destruct (read_digits base s None) as [w|]; [|discriminate].
  destruct (w >? INT_MAX); [discriminate|]. injection H as <-. exact Hn.
Qed.

Lemma setOctet_iff octets addr i addr' :
  IPv4Address.setOctet octets addr i = Ok addr' <->
  exists v, octet_text (nth i octets EmptyString) v /\ addr' = set_nth addr i v.
Proof.
  unfold IPv4Address.setOctet, octet_text. split.
  - intros H.
    destruct (empty (nth i octets EmptyString)) eqn:E1; [discriminate|].
    destruct (all_of isdigit (nth i octets EmptyString)) eqn:E2; [|discriminate].
    cbn [orb negb] in H.
    destruct (stoi _ 10) as [v|] eqn:E3; [|discriminate]. cbn [bind] in H.
    destruct (Z.ltb_spec v 0); [discriminate|].
    destruct (Z.gtb_spec v 255); [discriminate|]. cbn [orb] in H.
    injection H as <-. exists v. repeat split; try lia.
    unfold to_uint8. rewrite Z.mod_small by lia. reflexivity.
  - intros (v & (E1 & E2 & E3 & Hv) & ->).
    pose proof (stoi_nonneg _ 10 _ ltac:(lia) E3) as Hv0.
    rewrite E1, E2, E3. cbn [orb negb bind].
    destruct (Z.ltb_spec v 0); [lia|]. destruct (Z.gtb_spec v 255); [lia|].
    cbn [orb]. unfold to_uint8. rewrite Z.mod_small by lia. reflexivity.
Qed.

(** [IPv4Address(text)] accepts exactly the texts made of four components
    separated by periods, each one not empty, made of digits only and of
    value at most 255; the octets of the address are the values of the
    components.  A text with another number of components is refused with
    the message about the number of parts. *)
Theorem ipv4_parse_accepts (text : string) (a : IPAddress.t) :
  (IPv4Address.make text = Ok a <->
   exists c0 c1 c2 c3 v0 v1 v2 v3,
     split text "." = [c0; c1; c2; c3]
     /\ octet_text c0 v0 /\ octet_text c1 v1
     /\ octet_text c2 v2 /\ octet_text c3 v3
     /\ a = addr4 v0 v1 v2 v3)
  /\ (List.length (split text ".") <> 4%nat ->
      IPv4Address.make text
      = Throw (invalid_argument "Invalid IPv4 address: must have 4 parts.")).
Proof.
  split; [split|].
  - intros H. unfold IPv4Address.make, IPv4Address.setAddress in H.
    destruct (split text ".") as [|c0 [|c1 [|c2 [|c3 [|c4 l]]]]] eqn:E;
      try discriminate.
    cbn [List.length Nat.eqb negb IPv4Address.IPV4_NUM_OCTETS seq
         IPv4Address.setAddress_loop repeat] in H.
    destruct (IPv4Address.setOctet _ _ 0) as [a0|] eqn:E0; [|discriminate].
    cbn [bind] in H.
    destruct (IPv4Address.setOctet _ _ 1) as [a1|] eqn:E1; [|discriminate].
    cbn [bind] in H.
    destruct (IPv4Address.setOctet _ _ 2) as [a2|] eqn:E2; [|discriminate].
    cbn [bind] in H.
    destruct (IPv4Address.setOctet _ _ 3) as [a3|] eqn:E3; [|discriminate].
    cbn [bind] in H. injection H as <-.
    apply setOctet_iff in E0, E1, E2, E3.
    destruct E0 as (v0 & T0 & ->), E1 as (v1 & T1 & ->),
      E2 as (v2 & T2 & ->), E3 as (v3 & T3 & ->).
    exists c0, c1, c2, c3, v0, v1, v2, v3. cbn [nth] in *.
    split; [reflexivity|]. repeat (split; [assumption|]). reflexivity.
  - intros (c0 & c1 & c2 & c3 & v0 & v1 & v2 & v3 & E & T0 & T1 & T2 & T3 & ->).
    unfold IPv4Address.make, IPv4Address.setAddress. rewrite E.
    cbn [List.length Nat.eqb negb IPv4Address.IPV4_NUM_OCTETS seq
         IPv4Address.setAddress_loop repeat].
    rewrite (proj2 (setOctet_iff [c0; c1; c2; c3] _ 0 _)
               (ex_intro _ v0 (conj T0 eq_refl))). cbn [bind].
    rewrite (proj2 (setOctet_iff [c0; c1; c2; c3] _ 1 _)
               (ex_intro _ v1 (conj T1 eq_refl))). cbn [bind].
    rewrite (proj2 (setOctet_iff [c0; c1; c2; c3] _ 2 _)
               (ex_intro _ v2 (conj T2 eq_refl))). cbn [bind].
    rewrite (proj2 (setOctet_iff [c0; c1; c2; c3] _ 3 _)
               (ex_intro _ v3 (conj T3 eq_refl))). cbn [bind].
    reflexivity.
  - intros Hlen. unfold IPv4Address.make, IPv4Address.setAddress.
    destruct (Nat.eqb_spec (List.length (split text "."))
                IPv4Address.IPV4_NUM_OCTETS) as [E|_]; [contradiction|].
    reflexivity.
Qed.

Lemma ipv4_parse_accepts_witness :
  IPv4Address.make "1.2.3.4.5"
  = Throw (invalid_argument "Invalid IPv4 address: must have 4 parts.").
Proof.
  apply (proj2 (ipv4_parse_accepts "1.2.3.4.5" (addr4 0 0 0 0))).
  vm_compute. discriminate.
Defined.
(** ** Groups of IPv6 addresses *)

Lemma lor_shiftl_8 h l :
  0 <= h -> 0 <= l < 256 -> Z.lor (Z.shiftl h 8) l = h * 256 + l.
Proof.
  intros Hh Hl.
  assert (Hd : Z.land (Z.shiftl h 8) l = 0).
  { apply Z.bits_inj'. intros n Hn. rewrite Z.land_spec, Z.bits_0.
    destruct (Z_lt_ge_dec n 8) as [Hlt|Hge].
    - rewrite Z.shiftl_spec_low by lia. reflexivity.
    - destruct (Z.eq_dec l 0) as [->|Hl0];
        [rewrite Z.bits_0; apply andb_false_r|].
      rewrite (Z.bits_above_log2 l n); [apply andb_false_r|lia|].
      apply Z.lt_le_trans with 8; [|lia].
      apply Z.log2_lt_pow2; [lia|]. change (2 ^ 8) with 256. lia. }
  rewrite <- Z.lxor_lor by exact Hd.
  rewrite <- Z.add_nocarry_lxor by exact Hd.
  rewrite Z.shiftl_mul_pow2 by lia. reflexivity.
Qed.

Lemma hextet_octets v :
  0 <= v <= 65535 ->
  to_uint8 (Z.shiftr v 8) = v / 256 /\ to_uint8 (Z.land v 255) = v mod 256
  /\ 0 <= v / 256 < 256 /\ 0 <= v mod 256 < 256
  /\ Z.lor (Z.shiftl (v / 256) 8) (v mod 256) = v.
Proof.
  intros Hv. rewrite shiftr_8, land_255 by lia. unfold to_uint8.
  assert (H1 : 0 <= v / 256 < 256).
  { split; [apply Z.div_pos; lia|apply Z.div_lt_upper_bound; lia]. }
  pose proof (Z.mod_pos_bound v 256 ltac:(lia)) as H2.
  rewrite Z.mod_mod, (Z.mod_small (v / 256)) by lia.
  repeat split; try lia.
  rewrite lor_shiftl_8 by lia.
  pose proof (Z.div_mod v 256 ltac:(lia)). lia.
Qed.

Lemma setHextet_iff hextets addr i addr' :
  IPv6Address.setHextet hextets addr i = Ok addr' <->
  exists v, hextet_text (nth i hextets EmptyString) v
            /\ addr' = set_nth (set_nth addr (i * 2) (v / 256))
                         (i * 2 + 1) (v mod 256).
Proof.
  unfold IPv6Address.setHextet, hextet_text. split.
  - intros H.
    destruct (empty (nth i hextets EmptyString)) eqn:E1; [discriminate|].
    destruct (all_of isxdigit (nth i hextets EmptyString)) eqn:E2; [|discriminate].
    cbn [orb negb] in H.
    destruct (stoi _ 16) as [v|] eqn:E3; [|discriminate]. cbn [bind] in H.
    destruct (Z.ltb_spec v 0); [discriminate|].
    destruct (Z.gtb_spec v 65535); [discriminate|]. cbn [orb] in H.
    injection H as <-. exists v.
    destruct (hextet_octets v ltac:(lia)) as (-> & -> & _).
    repeat split; try lia.
  - intros (v & (E1 & E2 & E3 & Hv) & ->).
    pose proof (stoi_nonneg _ 16 _ ltac:(lia) E3) as Hv0.
    rewrite E1, E2, E3. cbn [orb negb bind].
    destruct (Z.ltb_spec v 0); [lia|]. destruct (Z.gtb_spec v 65535); [lia|].
    cbn [orb]. destruct (hextet_octets v ltac:(lia)) as (-> & -> & _).
    reflexivity.
Qed.

(** [IPv6Address(text)] succeeds exactly when the text expands to eight
    groups (after the zero groups of a compression token are filled in),
    each one not empty, made of hexadecimal digits only and of value at
    most 0xFFFF; every group is stored as two octets, most significant
    first, and indexed access to group [i] reads the value of the [i]-th
    group back. *)
Theorem ipv6_parse_groups (text : string) (a : IPAddress.t) :
  IPv6Address.make text = Ok a <->
  exists hs vs,
    IPv6Address.hextets_of text = Ok hs
    /\ List.length hs = 8%nat /\ List.length vs = 8%nat
    /\ (forall i, (i < 8)%nat ->
          hextet_text (nth i hs EmptyString) (nth i vs 0)
          /\ IPv6Address_subscript a (Z.of_nat i) = Ok (nth i vs 0))
    /\ a = addr6 (flat_map (fun v => [v / 256; v mod 256]) vs).
Proof.
  split.
  - intros H. unfold IPv6Address.make, IPv6Address.setAddress in H.
    destruct (IPv6Address.hextets_of text) as [hs|] eqn:E; [|discriminate].
    cbn [bind] in H.
    destruct hs as [|h0 [|h1 [|h2 [|h3 [|h4 [|h5 [|h6 [|h7 [|h8 l]]]]]]]]];
      try discriminate.
    cbn [List.length Nat.eqb negb IPv6Address.IPV6_NUM_HEXTETS seq
         IPv6Address.setAddress_loop] in H.
    destruct (IPv6Address.setHextet _ _ 0) as [a0|] eqn:E0; [|discriminate].
    cbn [bind] in H.
    destruct (IPv6Address.setHextet _ _ 1) as [a1|] eqn:E1; [|discriminate].
    cbn [bind] in H.
    destruct (IPv6Address.setHextet _ _ 2) as [a2|] eqn:E2; [|discriminate].
    cbn [bind] in H.
    destruct (IPv6Address.setHextet _ _ 3) as [a3|] eqn:E3; [|discriminate].
    cbn [bind] in H.
    destruct (IPv6Address.setHextet _ _ 4) as [a4|] eqn:E4; [|discriminate].
    cbn [bind] in H.
    destruct (IPv6Address.setHextet _ _ 5) as [a5|] eqn:E5; [|discriminate].
    cbn [bind] in H.
    destruct (IPv6Address.setHextet _ _ 6) as [a6|] eqn:E6; [|discriminate].
    cbn [bind] in H.
    destruct (IPv6Address.setHextet _ _ 7) as [a7|] eqn:E7; [|discriminate].
    cbn [bind] in H. injection H as <-.
    apply setHextet_iff in E0, E1, E2, E3, E4, E5, E6, E7.
    destruct E0 as (v0 & T0 & ->), E1 as (v1 & T1 & ->), E2 as (v2 & T2 & ->),
      E3 as (v3 & T3 & ->), E4 as (v4 & T4 & ->), E5 as (v5 & T5 & ->),
      E6 as (v6 & T6 & ->), E7 as (v7 & T7 & ->).
    cbn [nth] in *.
    exists [h0; h1; h2; h3; h4; h5; h6; h7], [v0; v1; v2; v3; v4; v5; v6; v7].
    split; [reflexivity|]. split; [reflexivity|]. split; [reflexivity|].
    split; [|reflexivity].
    intros i Hi.
    assert (Hv : forall c v, hextet_text c v ->
                 Z.lor (Z.shiftl (v / 256) 8) (v mod 256) = v).
    { intros c v (_ & _ & S & Hle).
      pose proof (stoi_nonneg _ 16 _ ltac:(lia) S).
      apply hextet_octets. lia. }
    unfold IPv6Address_subscript.
    do 8 (destruct i as [|i];
          [split; [assumption|];
           cbn; f_equal; eapply Hv; eassumption|]).
    lia.
  - intros (hs & vs & E & Hl & Hvl & Hall & ->).
    unfold IPv6Address.make, IPv6Address.setAddress. rewrite E. cbn [bind].
    destruct hs as [|h0 [|h1 [|h2 [|h3 [|h4 [|h5 [|h6 [|h7 [|h8 l]]]]]]]]];
      try discriminate.
    destruct vs as [|v0 [|v1 [|v2 [|v3 [|v4 [|v5 [|v6 [|v7 [|v8 l]]]]]]]]];
      try discriminate.
    cbn [List.length Nat.eqb negb IPv6Address.IPV6_NUM_HEXTETS seq
         IPv6Address.setAddress_loop].
    pose proof (proj1 (Hall 0%nat ltac:(lia))) as T0.
    pose proof (proj1 (Hall 1%nat ltac:(lia))) as T1.
    pose proof (proj1 (Hall 2%nat ltac:(lia))) as T2.
    pose proof (proj1 (Hall 3%nat ltac:(lia))) as T3.
    pose proof (proj1 (Hall 4%nat ltac:(lia))) as T4.
    pose proof (proj1 (Hall 5%nat ltac:(lia))) as T5.
    pose proof (proj1 (Hall 6%nat ltac:(lia))) as T6.
    pose proof (proj1 (Hall 7%nat ltac:(lia))) as T7.
    cbn [nth] in *.
    rewrite (proj2 (setHextet_iff [h0; h1; h2; h3; h4; h5; h6; h7] _ 0 _)
               (ex_intro _ v0 (conj T0 eq_refl))). cbn [bind].
    rewrite (proj2 (setHextet_iff [h0; h1; h2; h3; h4; h5; h6; h7] _ 1 _)
               (ex_intro _ v1 (conj T1 eq_refl))). cbn [bind].
    rewrite (proj2 (setHextet_iff [h0; h1; h2; h3; h4; h5; h6; h7] _ 2 _)
               (ex_intro _ v2 (conj T2 eq_refl))). cbn [bind].
    rewrite (proj2 (setHextet_iff [h0; h1; h2; h3; h4; h5; h6; h7] _ 3 _)
               (ex_intro _ v3 (conj T3 eq_refl))). cbn [bind].
    rewrite (proj2 (setHextet_iff [h0; h1; h2; h3; h4; h5; h6; h7] _ 4 _)
               (ex_intro _ v4 (conj T4 eq_refl))). cbn [bind].
    rewrite (proj2 (setHextet_iff [h0; h1; h2; h3; h4; h5; h6; h7] _ 5 _)
               (ex_intro _ v5 (conj T5 eq_refl))). cbn [bind].
    rewrite (proj2 (setHextet_iff [h0; h1; h2; h3; h4; h5; h6; h7] _ 6 _)
               (ex_intro _ v6 (conj T6 eq_refl))). cbn [bind].
    rewrite (proj2 (setHextet_iff [h0; h1; h2; h3; h4; h5; h6; h7] _ 7 _)
               (ex_intro _ v7 (conj T7 eq_refl))). cbn [bind].
    reflexivity.
Qed.

Lemma ipv6_parse_groups_witness :
  exists hs vs,
    IPv6Address.hextets_of "1::2" = Ok hs
    /\ List.length hs = 8%nat /\ List.length vs = 8%nat
    /\ (forall i, (i < 8)%nat ->
          hextet_text (nth i hs EmptyString) (nth i vs 0)
          /\ IPv6Address_subscript
               (addr6 [0; 1; 0; 0; 0; 0; 0; 0; 0; 0; 0; 0; 0; 0; 0; 2]) (Z.of_nat i)
             = Ok (nth i vs 0))
    /\ addr6 [0; 1; 0; 0; 0; 0; 0; 0; 0; 0; 0; 0; 0; 0; 0; 2]
       = addr6 (flat_map (fun v => [v / 256; v mod 256]) vs).
Proof.
  apply (proj1 (ipv6_parse_groups "1::2"
                  (addr6 [0; 1; 0; 0; 0; 0; 0; 0; 0; 0; 0; 0; 0; 0; 0; 2]))).
  vm_compute. reflexivity.
Defined.
(** ** The longest run of zero groups *)

Lemma fold_left_ext_in {A B} (f g : A -> B -> A) (l : list B) (a : A) :
  (forall a x, In x l -> f a x = g a x) -> fold_left f l a = fold_left g l a.
Proof.
  revert a. induction l as [|x l IH]; intros a H; [reflexivity|].
  cbn [fold_left]. rewrite (H a x (or_introl eq_refl)).
  apply IH. intros a' y Hy. apply H. right. exact Hy.
Qed.

Lemma nth_zero_groups ip i :
  (i < 8)%nat -> nth i (zero_groups ip) false = (IPv6Address.hextet ip i =? 0).
Proof.
  intros Hi. unfold zero_groups.
  cbn [seq map IPv6Address.IPV6_NUM_HEXTETS].
  do 8 (destruct i as [|i]; [reflexivity|]). lia.
Qed.

Lemma findLongestZeroSequence_of_zero_groups ip :
  IPv6Address.findLongestZeroSequence ip = longest_of (zero_groups ip).
Proof.
  unfold IPv6Address.findLongestZeroSequence, longest_of.
  rewrite (fold_left_ext_in (IPv6Address.zscan_step ip)
             (zscan_step_of (zero_groups ip))); [reflexivity|].
  intros st i Hi. apply in_seq in Hi.
  unfold IPv6Address.IPV6_NUM_HEXTETS in Hi.
  unfold IPv6Address.zscan_step, zscan_step_of.
  rewrite nth_zero_groups by lia. reflexivity.
Qed.

Lemma first_longest_run_all b0 b1 b2 b3 b4 b5 b6 b7 :
  first_longest_run [b0; b1; b2; b3; b4; b5; b6; b7]
    (longest_of [b0; b1; b2; b3; b4; b5; b6; b7]) = true.
Proof.
  destruct b0, b1, b2, b3, b4, b5, b6, b7; vm_compute; reflexivity.
Qed.

Lemma zero_at_zero_groups ip i :
  (i < 8)%nat ->
  zero_at (zero_groups ip) (Z.of_nat i) = (IPv6Address.hextet ip i =? 0).
Proof.
  intros Hi. unfold zero_at. rewrite Nat2Z.id. apply nth_zero_groups. exact Hi.
Qed.

Lemma all_zero_spec ip s e :
  e <= 7 ->
  all_zero (zero_groups ip) s e = true <->
  (forall i, s <= Z.of_nat i <= e -> IPv6Address.hextet ip i = 0).
Proof.
  intros He. unfold all_zero. rewrite forallb_forall. split.
  - intros H i Hi.
    specialize (H (Z.of_nat i)).
    rewrite zero_at_zero_groups in H by lia.
    assert (Hin : In (Z.of_nat i) (map Z.of_nat (seq 0 8))).
    { apply in_map. apply in_seq. lia. }
    specialize (H Hin).
    destruct (Z.leb_spec s (Z.of_nat i)); [|lia].
    destruct (Z.leb_spec (Z.of_nat i) e); [|lia].
    cbn [andb negb orb] in H. apply Z.eqb_eq in H. exact H.
  - intros H x Hx. apply in_map_iff in Hx. destruct Hx as (i & <- & Hi).
    apply in_seq in Hi. rewrite zero_at_zero_groups by lia.
    destruct (Z.leb_spec s (Z.of_nat i)); [|reflexivity].
    destruct (Z.leb_spec (Z.of_nat i) e); [|reflexivity].
    cbn [andb negb orb]. apply Z.eqb_eq. apply H. lia.
Qed.

Lemma zero_groups_shape ip :
  exists b0 b1 b2 b3 b4 b5 b6 b7, zero_groups ip = [b0; b1; b2; b3; b4; b5; b6; b7].
Proof. unfold zero_groups. cbn [seq map IPv6Address.IPV6_NUM_HEXTETS]. repeat eexists. Qed.

Lemma no_zero_group_spec ip :
  forallb negb (zero_groups ip) = true <->
  (forall i, (i < 8)%nat -> IPv6Address.hextet ip i <> 0).
Proof.
  rewrite forallb_forall. split.
  - intros H i Hi E.
    assert (Hin : In (IPv6Address.hextet ip i =? 0) (zero_groups ip)).
    { unfold zero_groups. apply in_map_iff. exists i. split; [reflexivity|].
      apply in_seq. unfold IPv6Address.IPV6_NUM_HEXTETS. lia. }
    apply H in Hin. rewrite E in Hin. discriminate.
  - intros H b Hb. unfold zero_groups in Hb. apply in_map_iff in Hb.
    destruct Hb as (i & <- & Hi). apply in_seq in Hi.
    unfold IPv6Address.IPV6_NUM_HEXTETS in Hi.
    apply negb_true_iff. apply Z.eqb_neq. apply H. lia.
Qed.

(** What [findLongestZeroSequence] returns, read off the groups. *)
Lemma longest_zero_run_spec ip s e :
  IPv6Address.findLongestZeroSequence ip = (s, e) ->
  ((forall i, (i < 8)%nat -> IPv6Address.hextet ip i <> 0) /\ s = -1 /\ e = -1)
  \/ ((exists i, (i < 8)%nat /\ IPv6Address.hextet ip i = 0)
      /\ 0 <= s <= e /\ e <= 7
      /\ (forall i, s <= Z.of_nat i <= e -> IPv6Address.hextet ip i = 0)
      /\ (forall s' e',
             0 <= s' <= e' -> e' <= 7 ->
             (forall i, s' <= Z.of_nat i <= e' -> IPv6Address.hextet ip i = 0) ->
             e' - s' < e - s \/ (e' - s' = e - s /\ s <= s'))).
Proof.
  intros H. rewrite findLongestZeroSequence_of_zero_groups in H.
  destruct (zero_groups_shape ip) as (b0 & b1 & b2 & b3 & b4 & b5 & b6 & b7 & Hz).
  pose proof (first_longest_run_all b0 b1 b2 b3 b4 b5 b6 b7) as Hok.
  rewrite <- Hz, H in Hok. unfold first_longest_run in Hok.
  destruct (forallb negb (zero_groups ip)) eqn:En.
  - left. apply andb_true_iff in Hok. destruct Hok as [H1 H2].
    apply Z.eqb_eq in H1, H2. split; [apply no_zero_group_spec; exact En|auto].
  - right.
    apply andb_true_iff in Hok. destruct Hok as [Hok H5].
    apply andb_true_iff in Hok. destruct Hok as [Hok H4].
    apply andb_true_iff in Hok. destruct Hok as [Hok H3].
    apply andb_true_iff in Hok. destruct Hok as [H1 H2].
    apply Z.leb_le in H1, H2, H3.
    pose proof (proj1 (all_zero_spec ip s e H3) H4) as Hall.
    split.
    { exists (Z.to_nat s). split; [lia|]. apply Hall. lia. }
    split; [lia|]. split; [exact H3|]. split; [exact Hall|].
    intros s' e' Hs' He' Hrun.
    pose proof (forallb_range _ 64 H5 (s' * 8 + e') ltac:(lia)) as Hc.
    cbv beta zeta in Hc.
    replace ((s' * 8 + e') / 8) with s' in Hc
      by (rewrite Z.div_add_l, Z.div_small by lia; lia).
    replace ((s' * 8 + e') mod 8) with e' in Hc
      by (rewrite Z.add_comm, Z.mod_add, Z.mod_small by lia; lia).
    rewrite (proj2 (all_zero_spec ip s' e' He') Hrun) in Hc.
    destruct (Z.leb_spec s' e'); [|lia]. cbn [andb negb orb] in Hc.
    apply orb_true_iff in Hc. destruct Hc as [Hc|Hc].
    + left. apply Z.ltb_lt in Hc. exact Hc.
    + right. apply andb_true_iff in Hc. destruct Hc as [Hc1 Hc2].
      apply Z.eqb_eq in Hc1. apply Z.leb_le in Hc2. lia.
Qed.

(** [findLongestZeroSequence] returns [(-1, -1)] when no group is zero;
    otherwise it returns the first and last index of a run of zero groups
    that is at least as long as every other run of zero groups and starts
    before every other run of the same length. *)
Theorem longest_zero_run (ip : IPAddress.t) (s e : Z) :
  IPv6Address.findLongestZeroSequence ip = (s, e) ->
  ((forall i, (i < 8)%nat -> IPv6Address.hextet ip i <> 0) /\ s = -1 /\ e = -1)
  \/ ((exists i, (i < 8)%nat /\ IPv6Address.hextet ip i = 0)
      /\ 0 <= s <= e /\ e <= 7
      /\ (forall i, s <= Z.of_nat i <= e -> IPv6Address.hextet ip i = 0)
      /\ (forall s' e',
             0 <= s' <= e' -> e' <= 7 ->
             (forall i, s' <= Z.of_nat i <= e' -> IPv6Address.hextet ip i = 0) ->
             e' - s' < e - s \/ (e' - s' = e - s /\ s <= s'))).
Proof. apply longest_zero_run_spec. Qed.

Lemma longest_zero_run_witness :
  (exists i, (i < 8)%nat
             /\ IPv6Address.hextet
                  (addr6 [0; 1; 0; 0; 0; 0; 0; 2; 0; 0; 0; 0; 0; 3; 0; 4]) i = 0)
  /\ 0 <= 1 <= 2.
Proof.
  destruct (longest_zero_run
              (addr6 [0; 1; 0; 0; 0; 0; 0; 2; 0; 0; 0; 0; 0; 3; 0; 4]) 1 2)
    as [(_ & H & _)|(H1 & H2 & _)].
  - vm_compute. reflexivity.
  - discriminate.
  - split; assumption.
Defined.
(** ** The text of an IPv6 address *)

Ltac print_case H :=
  unfold IPv6Address.print; rewrite H;
  cbv - [append print_int IPv6Address.hextet];
  rewrite ?append_assoc_string; cbn [append]; reflexivity.

(** What [print] writes for an IPv6 address, given the run [(s, e)] that
    [findLongestZeroSequence] returns: all eight groups joined by colons
    when there is no zero group; the groups before the run, two colons and
    the groups after the run when the run starts after the first group;
    and a single colon followed by the groups after the run when the run
    starts at the first group. *)
Theorem ipv6_print_form (ip : IPAddress.t) (s e : Z) :
  IPv6Address.findLongestZeroSequence ip = (s, e) ->
  let before := map (group_text ip) (seq 0 (Z.to_nat s)) in
  let after := map (group_text ip) (seq (Z.to_nat (e + 1)) (Z.to_nat (7 - e))) in
  (s = -1 -> IPv6Address.print ip = join ":" (map (group_text ip) (seq 0 8)))
  /\ (1 <= s ->
      IPv6Address.print ip = (join ":" before ++ "::" ++ join ":" after)%string)
  /\ (s = 0 -> IPv6Address.print ip = (":" ++ join ":" after)%string).
Proof.
  intros H. cbv zeta.
  destruct (longest_zero_run_spec ip s e H)
    as [(_ & -> & ->)|(_ & Hs & He & _)].
  - split; [intros _; print_case H|split; intros; lia].
  - assert (Hs' : s = 0 \/ s = 1 \/ s = 2 \/ s = 3 \/ s = 4 \/ s = 5 \/ s = 6 \/ s = 7)
      by lia.
    assert (He' : e = 0 \/ e = 1 \/ e = 2 \/ e = 3 \/ e = 4 \/ e = 5 \/ e = 6 \/ e = 7)
      by lia.
    split; [intros; lia|].
    destruct Hs' as [->|[->|[->|[->|[->|[->|[->| ->]]]]]]];
      destruct He' as [->|[->|[->|[->|[->|[->|[->| ->]]]]]]];
      try lia;
      (split; [intros Hge; try lia; print_case H
              |intros Heq; try lia; print_case H]).
Qed.

Lemma ipv6_print_form_witness :
  IPv6Address.print (addr6 [0; 1; 0; 0; 0; 0; 0; 2; 0; 0; 0; 0; 0; 3; 0; 4])
  = (join ":" (map (group_text (addr6 [0; 1; 0; 0; 0; 0; 0; 2; 0; 0; 0; 0; 0; 3; 0; 4]))
                 (seq 0 (Z.to_nat 1)))
     ++ "::"
     ++ join ":" (map (group_text (addr6 [0; 1; 0; 0; 0; 0; 0; 2; 0; 0; 0; 0; 0; 3; 0; 4]))
                    (seq (Z.to_nat (2 + 1)) (Z.to_nat (7 - 2)))))%string.
Proof.
  destruct (ipv6_print_form
              (addr6 [0; 1; 0; 0; 0; 0; 0; 2; 0; 0; 0; 0; 0; 3; 0; 4]) 1 2)
    as (_ & H & _).
  - vm_compute. reflexivity.
  - apply H. lia.
Defined.
